(** * astrbot_plugin_ip_proxy: the local forwarding proxy of [main.py]

    A shallow embedding of the plugin class [IPProxyPlugin] and the
    properties its specification states about it.

    Conventions of the embedding.
    - Python [str] and [bytes] values are Rocq strings, read as sequences of
      7-bit characters.  The character classes below are Python's own on
      that range; input outside it is not described by the model, and a
      statement about what the code makes of a string says so with the
      hypothesis [is_7bit] wherever the code would treat other input
      differently.
    - Python [int] is [Z]; [time.time()] is read as a number of seconds in
      [Z], since the code only subtracts and compares time stamps.  The
      floats of the traffic parser are binary64 values kept as an integer
      mantissa and exponent, with the rounding written out.
    - [self.stats] is the dictionary left by [_load_stats_sync]: the nine
      keys are present and hold values of the types the code writes, so it
      is a record.
    - Everything the code awaits from outside (clock, calendar, leasing
      service, validation probe, sockets, the file system) is answered by
      an environment record, which also says where the calling task is
      cancelled while it awaits the leasing service, a probe or a sleep;
      the plugin object, the two sockets of a connection and the stats
      file form the state threaded through a state-and-exception
      monad.
    - The plugin runs on one event loop: code between two [await]s is one
      step, so a block that takes [stats_lock] and awaits nothing is a
      function on the state, and concurrent callers are a sequence of such
      steps in some order. *)

From Stdlib Require Import ZArith List String Ascii Bool Lia Permutation.
From Stdlib Require DecimalString.
Import ListNotations.

Local Open Scope string_scope.
Local Open Scope Z_scope.

(* ================================================================== *)
(** * Part I: definitions *)
(* ================================================================== *)

(** ** Python exceptions and results *)

Inductive exn : Type :=
| TimeoutError
| ConnectionResetError
| BrokenPipeError
| OSError
| OverflowError
| ValueError
| CancelledError.

Inductive outcome (A : Type) : Type :=
| Return (a : A)
| Raise (e : exn).

Arguments Return {A} a.
Arguments Raise {A} e.

(** [except Exception] catches everything but [CancelledError], which
    derives from [BaseException]. *)
Definition is_Exception (e : exn) : bool :=
  match e with
  | CancelledError => false
  | _ => true
  end.

(** ** Strings the way Python treats them *)

Module PyStr.

Definition ord (c : ascii) : Z := Z.of_nat (nat_of_ascii c).

Definition chr (n : Z) : ascii := ascii_of_nat (Z.to_nat n).

(** [str.isspace] and the class [\s]: TAB, LF, VT, FF, CR, the four
    separators FS, GS, RS, US and the space. *)
Definition isspace (c : ascii) : bool :=
  let n := ord c in
  ((9 <=? n) && (n <=? 13)) || ((28 <=? n) && (n <=? 32)).

(** The class [\d]. *)
Definition isdigit (c : ascii) : bool :=
  let n := ord c in (48 <=? n) && (n <=? 57).

Definition isupper (c : ascii) : bool :=
  let n := ord c in (65 <=? n) && (n <=? 90).

Definition islower (c : ascii) : bool :=
  let n := ord c in (97 <=? n) && (n <=? 122).

Definition upper_char (c : ascii) : ascii :=
  if islower c then chr (ord c - 32) else c.

Definition lower_char (c : ascii) : ascii :=
  if isupper c then chr (ord c + 32) else c.

Fixpoint map_chars (f : ascii -> ascii) (s : string) : string :=
  match s with
  | EmptyString => EmptyString
  | String c r => String (f c) (map_chars f r)
  end.

Definition upper : string -> string := map_chars upper_char.
Definition lower : string -> string := map_chars lower_char.

Fixpoint lstrip (s : string) : string :=
  match s with
  | EmptyString => EmptyString
  | String c r => if isspace c then lstrip r else s
  end.

Fixpoint rstrip (s : string) : string :=
  match s with
  | EmptyString => EmptyString
  | String c r =>
      match rstrip r with
      | EmptyString => if isspace c then EmptyString else String c EmptyString
      | r' => String c r'
      end
  end.

Definition strip (s : string) : string := rstrip (lstrip s).

(** The longest prefix whose characters satisfy [p], and what follows. *)
Fixpoint span (p : ascii -> bool) (s : string) : string * string :=
  match s with
  | EmptyString => (EmptyString, EmptyString)
  | String c r =>
      if p c then let '(a, b) := span p r in (String c a, b)
      else (EmptyString, s)
  end.

(** [s.startswith(pre)], returning the rest. *)
Fixpoint strip_prefix (pre s : string) : option string :=
  match pre, s with
  | EmptyString, _ => Some s
  | String a p, String b r =>
      if Ascii.eqb a b then strip_prefix p r else None
  | String _ _, EmptyString => None
  end.

(** The same, ignoring case ([pre] is given in upper case). *)
Fixpoint strip_prefix_nocase (pre s : string) : option string :=
  match pre, s with
  | EmptyString, _ => Some s
  | String a p, String b r =>
      if Ascii.eqb a (upper_char b) then strip_prefix_nocase p r else None
  | String _ _, EmptyString => None
  end.

(** [needle in hay]. *)
Fixpoint contains (needle hay : string) : bool :=
  match strip_prefix needle hay with
  | Some _ => true
  | None =>
      match hay with
      | EmptyString => false
      | String _ r => contains needle r
      end
  end.

(** [s.split(sep)] for a one-character separator. *)
Fixpoint split (sep : ascii) (s : string) : list string :=
  match s with
  | EmptyString => [EmptyString]
  | String c r =>
      if Ascii.eqb c sep then EmptyString :: split sep r
      else match split sep r with
           | [] => [String c EmptyString]
           | h :: t => String c h :: t
           end
  end.

(** Truthiness of a [str | None]. *)
Definition truthy (s : option string) : bool :=
  match s with
  | Some (String _ _) => true
  | _ => false
  end.

Definition digit_value (c : ascii) : Z := ord c - 48.

(** The value of a run of decimal digits, most significant first. *)
Fixpoint digits_value (acc : Z) (s : string) : Z :=
  match s with
  | EmptyString => acc
  | String c r => digits_value (10 * acc + digit_value c) r
  end.

Fixpoint all_chars (p : ascii -> bool) (s : string) : bool :=
  match s with
  | EmptyString => true
  | String c r => p c && all_chars p r
  end.

Fixpoint repeat_char (c : ascii) (n : nat) : string :=
  match n with
  | O => EmptyString
  | S k => String c (repeat_char c k)
  end.

(** Text or bytes within the 7-bit range, on which the functions of
    this module are Python's.  Statements about what the code does with
    a string carry this as a hypothesis wherever the code would treat
    other input differently: [bytes.decode], [str.strip], [str.upper],
    the classes [\s] and [\d], [int()] and [float()] also know the
    characters beyond it. *)
Definition is_7bit (s : string) : bool :=
  all_chars (fun c => ord c <? 128) s.

End PyStr.

(** ** Python floats: binary64, as far as the parser uses them

    A finite non-negative double is [m * 2^e] with [0 <= m < 2^53] and
    [-1074 <= e <= 971]; anything that rounds beyond the largest one is
    [Infinity].  Only what [_parse_traffic_string] does with floats is
    modelled: [float(str)] of an unsigned decimal, multiplication by a
    power of 1024, and [int(float)]. *)

Module PyFloat.

Inductive float : Type :=
| Finite (m e : Z)
| Infinity.

Definition emin : Z := -1074.
Definition emax : Z := 971.

(** Round-half-to-even of the quotient [n / d], for [0 <= n] and [0 < d]. *)
Definition round_half_even (n d : Z) : Z :=
  let q := n / d in
  let r := n mod d in
  if 2 * r <? d then q
  else if d <? 2 * r then q + 1
  else if Z.even q then q else q + 1.

(** The integer part of the binary logarithm of [p / q], for positive [p]
    and [q]. *)
Definition floor_log2_ratio (p q : Z) : Z :=
  let k := Z.log2 p - Z.log2 q in
  let ge := if 0 <=? k then q * 2 ^ k <=? p else q <=? p * 2 ^ (- k) in
  if ge then k else k - 1.

(** The double nearest to [p / q] ([0 <= p], [0 < q]), ties to even. *)
Definition of_ratio (p q : Z) : float :=
  if p =? 0 then Finite 0 0
  else
    let e := Z.max (floor_log2_ratio p q - 52) emin in
    let m := if 0 <=? e then round_half_even p (q * 2 ^ e)
             else round_half_even (p * 2 ^ (- e)) q in
    let '(m, e) := if m =? 2 ^ 53 then (2 ^ 52, e + 1) else (m, e) in
    if emax <? e then Infinity else Finite m e.

(** [float(s)] where [s] is [ipart] or [ipart.fpart], both runs of
    digits. *)
Definition of_decimal (ipart fpart : string) : float :=
  of_ratio (PyStr.digits_value 0 (ipart ++ fpart)%string)
           (10 ^ Z.of_nat (String.length fpart)).

(** [x * 1024**k]: the factor is a power of two, so the product of a
    finite [x] is exact unless it leaves the range. *)
Definition mul_pow2 (x : float) (k : Z) : float :=
  match x with
  | Infinity => Infinity
  | Finite m e =>
      if m =? 0 then Finite 0 0
      else if 1024 <=? Z.log2 m + (e + k) then Infinity
      else Finite m (e + k)
  end.

(** [int(x)]: truncation, [OverflowError] on infinity. *)
Definition to_int (x : float) : outcome Z :=
  match x with
  | Infinity => Raise OverflowError
  | Finite m e => Return (if 0 <=? e then m * 2 ^ e else m / 2 ^ (- e))
  end.

End PyFloat.

(** ** [_parse_traffic_string] (main.py 70-92) *)

Module Parser.

Import PyStr PyFloat.

(** The optional group [(?:\.\d+)?]: a dot followed by at least one
    digit, or nothing. *)
Definition match_fraction (s : string) : string * string :=
  match s with
  | String "." r =>
      match span isdigit r with
      | (EmptyString, _) => (EmptyString, s)
      | (f, rest) => (f, rest)
      end
  | _ => (EmptyString, s)
  end.

(** The optional group [(B|KB|MB|GB|TB|PB)?], alternatives in order. *)
Definition match_unit (s : string) : option string :=
  let try (u : string) (k : option string) :=
    match strip_prefix u s with
    | Some _ => Some u
    | None => k
    end in
  try "B" (try "KB" (try "MB" (try "GB" (try "TB" (try "PB" None))))).

(** [re.match(r'(\d+(?:\.\d+)?)\s*(B|KB|MB|GB|TB|PB)?', s)]: the two
    groups, the first one split at its dot. *)
Definition re_match (s : string) : option (string * string * option string) :=
  match span isdigit s with
  | (EmptyString, _) => None
  | (ipart, r1) =>
      let '(fpart, r2) := match_fraction r1 in
      let '(_, r3) := span isspace r2 in
      Some (ipart, fpart, match_unit r3)
  end.

(** The parser on 7-bit text ([is_7bit]): there [strip], [upper], [\d],
    [\s] and [float] are the ones below, while on other text Python's
    are wider (a no-break space is stripped, a full-width digit is a
    digit). *)
Definition _parse_traffic_string (traffic_str : string) : outcome (option Z) :=
  let traffic_str := upper (strip traffic_str) in
  match re_match traffic_str with
  | None => Return None
  | Some (ipart, fpart, unit) =>
      let value := of_decimal ipart fpart in
      let int_of (x : float) : outcome (option Z) :=
        match to_int x with
        | Return n => Return (Some n)
        | Raise e => Raise e
        end in
      match unit with
      | None => int_of value
      | Some u =>
          if (u =? "B")%string then int_of value
          else if (u =? "KB")%string then int_of (mul_pow2 value 10)
          else if (u =? "MB")%string then int_of (mul_pow2 value 20)
          else if (u =? "GB")%string then int_of (mul_pow2 value 30)
          else if (u =? "TB")%string then int_of (mul_pow2 value 40)
          else if (u =? "PB")%string then int_of (mul_pow2 value 50)
          else Return None
      end
  end.




End Parser.

(** ** [_format_bytes] (main.py 59-67)

    The function is only ever given integers ([parsed_bytes], the
    byte counters); its first division turns the integer into a
    double. *)

Module Format.

Import PyStr PyFloat.

(** [str(n)] for an integer. *)
Definition str_int (n : Z) : string :=
  DecimalString.NilZero.string_of_int (Z.to_int n).

(** [float(n)] for an integer [n >= 0], as the division [n / 1024.0]
    computes it first: the nearest double, [OverflowError] when [n] is
    too large for one. *)
Definition of_int (n : Z) : outcome float :=
  match of_ratio n 1 with
  | Infinity => Raise OverflowError
  | x => Return x
  end.

(** [x < 1024.0]. *)
Definition lt_1024 (x : float) : bool :=
  match x with
  | Infinity => false
  | Finite m e =>
      if 0 <=? e then m * 2 ^ e <? 1024 else m <? 1024 * 2 ^ (- e)
  end.

Definition two_digits (n : Z) : string :=
  if n <? 10 then ("0" ++ str_int n)%string else str_int n.

(** [f"{x:.2f}"]: the decimal with two places nearest to the value of
    [x], ties to even. *)
Definition format_2f (x : float) : string :=
  match x with
  | Infinity => "inf"
  | Finite m e =>
      let hundredths :=
        if 0 <=? e then 100 * m * 2 ^ e
        else round_half_even (100 * m) (2 ^ (- e)) in
      (str_int (hundredths / 100) ++ "."
       ++ two_digits (hundredths mod 100))%string
  end.

(** The loop of lines 63-66 and the line after it.  Dividing a double
    of at least 1024 by 1024.0 up to five times is exact: the result
    stays far above the subnormal range. *)
Fixpoint format_loop (units : list string) (size : float) : string :=
  match units with
  | [] => (format_2f size ++ " EB")%string
  | unit :: rest =>
      let size := mul_pow2 size (-10) in
      if lt_1024 size then (format_2f size ++ " " ++ unit)%string
      else format_loop rest size
  end.

Definition _format_bytes (size : Z) : outcome string :=
  if size <? 1024 then Return (str_int size ++ " B")%string
  else
    match of_int size with
    | Raise e => Raise e
    | Return x => Return (format_loop ["KB"; "MB"; "GB"; "TB"; "PB"] x)
    end.

End Format.

(** ** The plugin object and the world around it *)

Module State.

(** [self.stats] after [_load_stats_sync] (main.py 118-139). *)
Record Stats : Type := mkStats {
  total_ips_used : Z;
  today_date : string;
  today_ips_used : Z;
  today_requests_succeeded : Z;
  today_requests_failed : Z;
  total_traffic_bytes : Z;
  today_traffic_bytes : Z;
  daily_traffic_history : list Z;
  total_traffic_limit_bytes : Z
}.

(** What the [setdefault] calls leave when there is no stats file. *)
Definition default_stats : Stats :=
  mkStats 0 "1970-01-01" 0 0 0 0 0 [] 0.

(** The keys of [self.config] the proxy core reads; [None] is an absent
    key, for which the code supplies a default at each [config.get]. *)
Record Config : Type := mkConfig {
  api_url : option string;
  allowed_domains : option (list string);
  ip_expiration_time : option Z;
  validation_interval : option Z
}.

Definition get {A : Type} (key : option A) (default : A) : A :=
  match key with
  | Some v => v
  | None => default
  end.

(** The asyncio task that runs [start_local_proxy_server]. *)
Inductive task_state : Type :=
| Pending
| CancelRequested
| Done.

(** What [self.server_task] can refer to. *)
Inductive Task : Type :=
| ListenerTask.

(** The fields of [self] set in [__init__] (main.py 30-40). *)
Record Plugin : Type := mkPlugin {
  config : Config;
  stats : Stats;
  current_ip : option string;
  current_port : option Z;
  last_validation_time : option Z;
  server_task : option Task
}.

(** The body of the leasing service's answer, or a failure of the request
    that [except Exception] catches ([raise_for_status] included), or
    the cancellation of the calling task while it awaits the answer,
    which [except Exception] lets through. *)
Inductive ApiReply : Type :=
| ApiText (body : string)
| ApiRaises
| ApiCancelled.

(** The request of [is_ip_valid] through the endpoint: answered 200 in
    time, failed (another status, or an error that [except Exception]
    catches), or cut short by the cancellation of the calling task. *)
Inductive ProbeReply : Type :=
| Probe200
| ProbeFails
| ProbeCancelled.

(** [await asyncio.wait_for(reader.read(4096), timeout=10.0)]. *)
Inductive ReadResult : Type :=
| ReadData (data : string)
| ReadRaises (e : exn).

Inductive Direction : Type :=
| ClientToRemote
| RemoteToClient.

(** One completed [src.read(4096)] of a forwarding loop, and whether the
    [dst.drain()] that follows a forwarded chunk raises. *)
Record PumpStep : Type := mkPumpStep {
  step_dir : Direction;
  step_read : ReadResult;
  step_drain : option exn
}.

(** The answers of everything outside the plugin.  The streams are
    indexed by the number of earlier calls of the same kind. *)
Record Env : Type := mkEnv {
  env_today : nat -> string;
  env_time : nat -> Z;
  env_api : nat -> ApiReply;
  env_probe : nat -> string -> Z -> ProbeReply;
  env_first_read : ReadResult;
  env_client_drain : option exn;
  env_dial : option exn;
  env_remote_drain : option exn;
  env_schedule : list PumpStep;
  env_sleep_cancelled : nat -> bool;
  env_write_ok : nat -> bool
}.

(** What the plugin has done to the outside so far.  [disk] lists the
    attempts to write the stats file, newest first: what a write that
    went through has left in the file, or [None] for a failed write,
    after which the content of the file is not known. *)
Record Outside : Type := mkOutside {
  disk : list (option Stats);
  listener : task_state;
  n_today : nat;
  n_time : nat;
  n_api : nat;
  n_probe : nat;
  sleeps : nat
}.

(** A [StreamWriter]: what was written to it and whether it is closing. *)
Record Writer : Type := mkWriter {
  written : list string;
  is_closing : bool
}.

(** The locals of one [handle_connection] call that its [except] and
    [finally] clauses read. *)
Record Conn : Type := mkConn {
  writer : Writer;
  remote_writer : option Writer;
  is_counted : bool
}.

Record World : Type := mkWorld {
  env : Env;
  self : Plugin;
  out : Outside;
  conn : Conn
}.

Definition fresh_writer : Writer := mkWriter [] false.
Definition fresh_conn : Conn := mkConn fresh_writer None false.
Definition fresh_outside (l : task_state) : Outside :=
  mkOutside [] l 0 0 0 0 0.

(** Field updates. *)
Definition with_self (f : Plugin -> Plugin) (w : World) : World :=
  mkWorld (env w) (f (self w)) (out w) (conn w).
Definition with_out (f : Outside -> Outside) (w : World) : World :=
  mkWorld (env w) (self w) (f (out w)) (conn w).
Definition with_conn (f : Conn -> Conn) (w : World) : World :=
  mkWorld (env w) (self w) (out w) (f (conn w)).

Definition set_stats (s : Stats) (p : Plugin) : Plugin :=
  mkPlugin (config p) s (current_ip p) (current_port p)
           (last_validation_time p) (server_task p).
Definition set_current_ip (v : option string) (p : Plugin) : Plugin :=
  mkPlugin (config p) (stats p) v (current_port p)
           (last_validation_time p) (server_task p).
Definition set_current_port (v : option Z) (p : Plugin) : Plugin :=
  mkPlugin (config p) (stats p) (current_ip p) v
           (last_validation_time p) (server_task p).
Definition set_last_validation_time (v : option Z) (p : Plugin) : Plugin :=
  mkPlugin (config p) (stats p) (current_ip p) (current_port p) v
           (server_task p).
Definition set_server_task (v : option Task) (p : Plugin) : Plugin :=
  mkPlugin (config p) (stats p) (current_ip p) (current_port p)
           (last_validation_time p) v.

Definition set_disk (v : list (option Stats)) (o : Outside) : Outside :=
  mkOutside v (listener o) (n_today o) (n_time o) (n_api o) (n_probe o)
            (sleeps o).
Definition set_listener (v : task_state) (o : Outside) : Outside :=
  mkOutside (disk o) v (n_today o) (n_time o) (n_api o) (n_probe o)
            (sleeps o).
Definition set_n_today (v : nat) (o : Outside) : Outside :=
  mkOutside (disk o) (listener o) v (n_time o) (n_api o) (n_probe o)
            (sleeps o).
Definition set_n_time (v : nat) (o : Outside) : Outside :=
  mkOutside (disk o) (listener o) (n_today o) v (n_api o) (n_probe o)
            (sleeps o).
Definition set_n_api (v : nat) (o : Outside) : Outside :=
  mkOutside (disk o) (listener o) (n_today o) (n_time o) v (n_probe o)
            (sleeps o).
Definition set_n_probe (v : nat) (o : Outside) : Outside :=
  mkOutside (disk o) (listener o) (n_today o) (n_time o) (n_api o) v
            (sleeps o).
Definition set_sleeps (v : nat) (o : Outside) : Outside :=
  mkOutside (disk o) (listener o) (n_today o) (n_time o) (n_api o)
            (n_probe o) v.

Definition set_writer (v : Writer) (c : Conn) : Conn :=
  mkConn v (remote_writer c) (is_counted c).
Definition set_remote_writer (v : option Writer) (c : Conn) : Conn :=
  mkConn (writer c) v (is_counted c).
Definition set_is_counted (v : bool) (c : Conn) : Conn :=
  mkConn (writer c) (remote_writer c) v.

(** Truthiness of an [int | None] and of a [float | None]. *)
Definition truthy_num (n : option Z) : bool :=
  match n with
  | Some v => negb (v =? 0)
  | None => false
  end.

End State.

(** ** The monad of plugin code: state and exceptions *)

Module Run.

Import State.

Definition M (A : Type) : Type := World -> outcome A * World.

Definition ret {A : Type} (a : A) : M A := fun w => (Return a, w).

Definition bind {A B : Type} (m : M A) (k : A -> M B) : M B :=
  fun w =>
    match m w with
    | (Return a, w') => k a w'
    | (Raise e, w') => (Raise e, w')
    end.

Definition raise {A : Type} (e : exn) : M A := fun w => (Raise e, w).

Definition gets {A : Type} (f : World -> A) : M A := fun w => (Return (f w), w).

Definition modify (f : World -> World) : M unit := fun w => (Return tt, f w).

(** [try: body / except ...: handler]; [handler e = None] when no clause
    matches [e]. *)
Definition try_except {A : Type} (body : M A) (handler : exn -> option (M A))
  : M A :=
  fun w =>
    match body w with
    | (Return a, w') => (Return a, w')
    | (Raise e, w') =>
        match handler e with
        | Some h => h w'
        | None => (Raise e, w')
        end
    end.

(** [try: body / finally: fin]. *)
Definition try_finally {A : Type} (body : M A) (fin : M unit) : M A :=
  fun w =>
    match body w with
    | (r, w') =>
        match fin w' with
        | (Return _, w'') => (r, w'')
        | (Raise e, w'') => (Raise e, w'')
        end
    end.

(** [if b: m]. *)
Definition when (b : bool) (m : M unit) : M unit :=
  if b then m else ret tt.

(** A relation between the world before and after that every run of [m]
    respects; with a reflexive and transitive relation this is how frame
    conditions are stated. *)
Definition preserves {A : Type} (R : World -> World -> Prop) (m : M A) : Prop :=
  forall w, R w (snd (m w)).

(** The relation of leaving an observation of the world unchanged. *)
Definition keeps {A : Type} (f : World -> A) (w w' : World) : Prop :=
  f w' = f w.

End Run.

Declare Scope run_scope.
Delimit Scope run_scope with run.

Notation "x <- m ;; k" := (Run.bind m (fun x => k))
  (at level 100, m at next level, right associativity) : run_scope.
Notation "' pat <- m ;; k" := (Run.bind m (fun x => match x with pat => k end))
  (at level 100, pat pattern, m at next level, right associativity) : run_scope.
Notation "m ;; k" := (Run.bind m (fun _ => k))
  (at level 100, right associativity) : run_scope.

(** ** Traffic Ledger (main.py 95-165 and the accounting blocks) *)

Module Ledger.

Import State Run.
Local Open Scope run_scope.

Definition get_stats : M Stats := gets (fun w => stats (self w)).

Definition put_stats (s : Stats) : M unit := modify (with_self (set_stats s)).

(** [date.today().isoformat()]. *)
Definition date_today : M string :=
  fun w =>
    (Return (env_today (env w) (n_today (out w))),
     with_out (fun o => set_n_today (S (n_today o)) o) w).

(** What the next write of the stats file leaves when it is given the
    dictionary [s]: [s] if it goes through. *)
Definition dumped (w : World) (s : Stats) : option Stats :=
  if env_write_ok (env w) (List.length (disk (out w)))
  then Some s else None.

(** [_save_stats] (141-147): the file is rewritten with the current
    dictionary; a failing write is logged and swallowed. *)
Definition _save_stats : M unit :=
  modify (fun w =>
            with_out (fun o => set_disk (dumped w (stats (self w)) :: disk o) o)
                     w).

(** Lines 102-109: append the day's traffic, drop the oldest entry when
    more than three are held.  On the dictionaries of this model the two
    guards (value not [None], key present) always pass. *)
Definition push_history (s : Stats) : list Z :=
  let h := (daily_traffic_history s ++ [today_traffic_bytes s])%list in
  if (3 <? List.length h)%nat then tl h else h.

Definition reset_day (today_str : string) (s : Stats) : Stats :=
  mkStats (total_ips_used s) today_str 0 0 0 (total_traffic_bytes s) 0
          (push_history s) (total_traffic_limit_bytes s).

Definition _check_and_reset_daily_stats : M unit :=
  today_str <- date_today ;;
  s <- get_stats ;;
  if negb (today_date s =? today_str)%string then
    put_stats (reset_day today_str s) ;;
    _save_stats
  else ret tt.

Definition count_request (success : bool) (s : Stats) : Stats :=
  if success then
    mkStats (total_ips_used s) (today_date s) (today_ips_used s)
            (today_requests_succeeded s + 1) (today_requests_failed s)
            (total_traffic_bytes s) (today_traffic_bytes s)
            (daily_traffic_history s) (total_traffic_limit_bytes s)
  else
    mkStats (total_ips_used s) (today_date s) (today_ips_used s)
            (today_requests_succeeded s) (today_requests_failed s + 1)
            (total_traffic_bytes s) (today_traffic_bytes s)
            (daily_traffic_history s) (total_traffic_limit_bytes s).

Definition _increment_request_counter (success : bool) : M unit :=
  _check_and_reset_daily_stats ;;
  s <- get_stats ;;
  put_stats (count_request success s) ;;
  _save_stats.

Definition count_ip (s : Stats) : Stats :=
  mkStats (total_ips_used s + 1) (today_date s) (today_ips_used s + 1)
          (today_requests_succeeded s) (today_requests_failed s)
          (total_traffic_bytes s) (today_traffic_bytes s)
          (daily_traffic_history s) (total_traffic_limit_bytes s).

Definition _increment_ip_usage_counter : M unit :=
  _check_and_reset_daily_stats ;;
  s <- get_stats ;;
  put_stats (count_ip s) ;;
  _save_stats.

(** The only parts of the world a counter update can change: the stats,
    the stats file and the number of looks at the calendar. *)
Definition ledger_touch (s : Stats) (d : list (option Stats)) (n : nat)
           (w : World)
  : World :=
  with_out (fun o => set_disk d (set_n_today n o)) (with_self (set_stats s) w).

(** The test [total_limit > 0 and total_traffic_bytes >= total_limit]
    (184, 206, 256). *)
Definition quota_reached (s : Stats) : bool :=
  let total_limit := total_traffic_limit_bytes s in
  (0 <? total_limit) && (total_limit <=? total_traffic_bytes s).

Definition add_bytes (n : Z) (s : Stats) : Stats :=
  mkStats (total_ips_used s) (today_date s) (today_ips_used s)
          (today_requests_succeeded s) (today_requests_failed s)
          (total_traffic_bytes s + n) (today_traffic_bytes s + n)
          (daily_traffic_history s) (total_traffic_limit_bytes s).

(** The block held under [stats_lock] at 178-184 and again at 250-256:
    both counters grow by the size of the chunk, then the quota is
    tested.  Nothing is awaited between taking the lock and the test, so
    the block is one step of the plugin. *)
Definition track_traffic (traffic_this_chunk : Z) : M bool :=
  s <- get_stats ;;
  put_stats (add_bytes traffic_this_chunk s) ;;
  s' <- get_stats ;;
  ret (quota_reached s').

(** [set_total_traffic_limit] and [set_used_traffic] (545-568), after
    parsing. *)
Definition set_limit (parsed_bytes : Z) (s : Stats) : Stats :=
  mkStats (total_ips_used s) (today_date s) (today_ips_used s)
          (today_requests_succeeded s) (today_requests_failed s)
          (total_traffic_bytes s) (today_traffic_bytes s)
          (daily_traffic_history s) parsed_bytes.

Definition set_used (parsed_bytes : Z) (s : Stats) : Stats :=
  mkStats (total_ips_used s) (today_date s) (today_ips_used s)
          (today_requests_succeeded s) (today_requests_failed s)
          parsed_bytes (today_traffic_bytes s)
          (daily_traffic_history s) (total_traffic_limit_bytes s).

(** The operations on the ledger, as the plugin can issue them in any
    order. *)
Inductive Op : Type :=
| OpCheckDay
| OpRequest (success : bool)
| OpLease
| OpTraffic (n : Z)
| OpSetLimit (n : Z)
| OpSetUsed (n : Z).

Definition run_op (o : Op) : M unit :=
  match o with
  | OpCheckDay => _check_and_reset_daily_stats
  | OpRequest b => _increment_request_counter b
  | OpLease => _increment_ip_usage_counter
  | OpTraffic n => track_traffic n ;; ret tt
  | OpSetLimit n => s <- get_stats ;; put_stats (set_limit n s) ;; _save_stats
  | OpSetUsed n => s <- get_stats ;; put_stats (set_used n s) ;; _save_stats
  end.

Fixpoint run_ops (l : list Op) : M unit :=
  match l with
  | [] => ret tt
  | o :: r => run_op o ;; run_ops r
  end.

Definition sum_bytes (chunks : list Z) : Z := fold_right Z.add 0 chunks.

Definition history (w : World) : list Z :=
  daily_traffic_history (stats (self w)).

(** One day of service: [n] bytes of traffic are accounted, then the
    first check of the next day runs. *)
Definition day (n : Z) : M unit :=
  track_traffic n ;; _check_and_reset_daily_stats.

End Ledger.

(** ** Upstream Endpoint Pool (main.py 353-375, 398-474) *)

Module Pool.

Import PyStr State Run Ledger.
Local Open Scope run_scope.

(** The blanks that [int()] skips around a number: TAB, LF, VT, FF, CR
    and the space, not the separators FS, GS, RS, US that [str.strip]
    removes as well. *)
Definition isspace_int (c : ascii) : bool :=
  let n := ord c in ((9 <=? n) && (n <=? 13)) || (n =? 32).

Fixpoint lstrip_int (s : string) : string :=
  match s with
  | EmptyString => EmptyString
  | String c r => if isspace_int c then lstrip_int r else s
  end.

Fixpoint rstrip_int (s : string) : string :=
  match s with
  | EmptyString => EmptyString
  | String c r =>
      match rstrip_int r with
      | EmptyString =>
          if isspace_int c then EmptyString else String c EmptyString
      | r' => String c r'
      end
  end.

(** The number of digits of a numeral, underscores and anything else
    left out. *)
Fixpoint count_digits (s : string) : Z :=
  match s with
  | EmptyString => 0
  | String c r => (if isdigit c then 1 else 0) + count_digits r
  end.

(** [sys.get_int_max_str_digits()] as the interpreter sets it. *)
Definition int_max_str_digits : Z := 4300.

(** [int(port_str)] on text: surrounding blanks, an optional sign, and
    digits that single underscores may separate, at most
    [int_max_str_digits] of them.  [None] stands for [ValueError]. *)
Fixpoint int_body (acc : Z) (after_digit : bool) (s : string) : option Z :=
  match s with
  | EmptyString => if after_digit then Some acc else None
  | String c r =>
      if isdigit c then int_body (10 * acc + digit_value c) true r
      else if Ascii.eqb c "_" && after_digit then int_body acc false r
      else None
  end.

Definition int_digits (s : string) : option Z :=
  if int_max_str_digits <? count_digits s then None
  else int_body 0 false s.

Definition py_int (s : string) : option Z :=
  match rstrip_int (lstrip_int s) with
  | String "-" r => option_map Z.opp (int_digits r)
  | String "+" r => int_digits r
  | r => int_digits r
  end.

Definition time_time : M Z :=
  fun w =>
    (Return (env_time (env w) (n_time (out w))),
     with_out (fun o => set_n_time (S (n_time o)) o) w).

(** [await asyncio.sleep(1)] (470), which ends early with
    [CancelledError] when the calling task is cancelled meanwhile. *)
Definition sleep_1 : M unit :=
  cancelled <- (fun w =>
                  (Return (env_sleep_cancelled (env w) (sleeps (out w))),
                   with_out (fun o => set_sleeps (S (sleeps o)) o) w)) ;;
  if cancelled then raise CancelledError else ret tt.

(** [self.http_session.get(api_url)] up to [response.text()]. *)
Definition http_get_api : M ApiReply :=
  fun w =>
    (Return (env_api (env w) (n_api (out w))),
     with_out (fun o => set_n_api (S (n_api o)) o) w).

(** The request of line 431 through the endpoint. *)
Definition probe (ip : string) (port : Z) : M ProbeReply :=
  fun w =>
    (Return (env_probe (env w) (n_probe (out w)) ip port),
     with_out (fun o => set_n_probe (S (n_probe o)) o) w).

(** [is_ip_valid] (425-437): true exactly when the probe through the
    endpoint answers 200 in time; every [Exception] is caught, a
    cancellation is not. *)
Definition is_ip_valid (ip : string) (port : Z) : M bool :=
  reply <- probe ip port ;;
  match reply with
  | Probe200 => ret true
  | ProbeFails => ret false
  | ProbeCancelled => raise CancelledError
  end.

Definition get_new_ip : M (option string * option Z) :=
  api_url <- gets (fun w => api_url (config (self w))) ;;
  if negb (truthy api_url) || contains "YOUR_TOKEN" (get api_url "") then
    ret (None, None)
  else
    reply <- http_get_api ;;
    match reply with
    | ApiCancelled => raise CancelledError
    | ApiRaises => ret (None, None)
    | ApiText body =>
        let ip_port := strip body in
        if contains ":" ip_port then
          match split ":" ip_port with
          | [ip; port_str] =>
              match py_int port_str with
              | Some port =>
                  _increment_ip_usage_counter ;;
                  ret (Some ip, Some port)
              | None => ret (None, None)
              end
          | _ => ret (None, None)
          end
        else ret (None, None)
    end.

(** What [get_new_ip] makes of an answer of the leasing service: the
    pair it returns, if any. *)
Definition candidate (reply : ApiReply) : option (string * Z) :=
  match reply with
  | ApiRaises | ApiCancelled => None
  | ApiText body =>
      let ip_port := strip body in
      if contains ":" ip_port then
        match split ":" ip_port with
        | [ip; port_str] =>
            match py_int port_str with
            | Some port => Some (ip, port)
            | None => None
            end
        | _ => None
        end
      else None
  end.




(** Whether [get_new_ip] goes to the leasing service at all. *)
Definition api_configured (w : World) : bool :=
  let url := api_url (config (self w)) in
  truthy url && negb (contains "YOUR_TOKEN" (get url "")).


(** What belongs to the pool: the endpoint and the calls made to the
    clock, the leasing service and the probe. *)
Definition pool_view (w : World) :=
  (current_ip (self w), current_port (self w), last_validation_time (self w),
   n_api (out w), n_probe (out w), n_time (out w), sleeps (out w)).

(** The listening service as the plugin sees it. *)
Definition service_view (w : World) :=
  (server_task (self w), listener (out w)).

(** What a connection handler relies on across calls into the pool and
    the request counters. *)
Definition relay_view (w : World) :=
  (env w, conn w, config (self w), server_task (self w), listener (out w),
   total_traffic_bytes (stats (self w)),
   total_traffic_limit_bytes (stats (self w))).

Definition set_ip (v : option string) : M unit :=
  modify (with_self (set_current_ip v)).
Definition set_port (v : option Z) : M unit :=
  modify (with_self (set_current_port v)).
Definition set_validated (v : option Z) : M unit :=
  modify (with_self (set_last_validation_time v)).

Definition current : M (option string * option Z) :=
  gets (fun w => (current_ip (self w), current_port (self w))).

(** The loop [for _ in range(3)] (462-470); [Some] is a [return] from
    inside the loop. *)
Fixpoint acquire (attempts : nat) : M (option (option string * option Z)) :=
  match attempts with
  | O => ret None
  | S k =>
      '(new_ip, new_port) <- get_new_ip ;;
      valid <- (if truthy new_ip && truthy_num new_port
                then is_ip_valid (get new_ip "") (get new_port 0)
                else ret false) ;;
      if valid then
        set_ip new_ip ;;
        set_port new_port ;;
        now <- time_time ;;
        set_validated (Some now) ;;
        r <- current ;;
        ret (Some r)
      else
        sleep_1 ;;
        acquire k
  end.

(** Lines 461-474, reached whenever no [return] happened before. *)
Definition acquire_or_give_up : M (option string * option Z) :=
  ip <- gets (fun w => current_ip (self w)) ;;
  r <- (if negb (truthy ip) then acquire 3 else ret None) ;;
  match r with
  | Some endpoint => ret endpoint
  | None =>
      ip <- gets (fun w => current_ip (self w)) ;;
      if negb (truthy ip) then ret (None, None) else current
  end.

(** [get_valid_ip] (439-474) from the moment it holds [ip_lock]: the
    block under the lock, which is one step for every other caller of
    the pool.  A caller cancelled while it still waits for the lock has
    not started this step. *)
Definition get_valid_ip : M (option string * option Z) :=
  ip_expiration_time <-
    gets (fun w => get (ip_expiration_time (config (self w))) 300) ;;
  validation_interval <-
    gets (fun w => get (validation_interval (config (self w))) 60) ;;
  p <- gets self ;;
  if truthy (current_ip p) && truthy_num (current_port p)
     && truthy_num (last_validation_time p) then
    now <- time_time ;;
    let ip_age := now - get (last_validation_time p) 0 in
    if (0 <? ip_expiration_time) && (ip_expiration_time <? ip_age) then
      set_ip None ;;
      set_port None ;;
      acquire_or_give_up
    else if ip_age <? validation_interval then
      current
    else
      valid <- is_ip_valid (get (current_ip p) "") (get (current_port p) 0) ;;
      if valid then
        now <- time_time ;;
        set_validated (Some now) ;;
        current
      else
        set_ip None ;;
        acquire_or_give_up
  else
    acquire_or_give_up.

(** [switch_ip] (398-413) without its chat messages.  The lock taken at
    403 is released at 406 and taken again inside [get_valid_ip] (440):
    callers that queued on [ip_lock] meanwhile are served first, and
    [meanwhile] is what they and the tasks that run beside them do to the
    world before [switch_ip] goes on; it is the identity when nobody
    waits for the lock, for then [switch_ip] takes it again at once. *)
Definition switch_ip (meanwhile : World -> World)
  : M (option string * option Z) :=
  set_ip None ;;
  set_port None ;;
  modify meanwhile ;;
  get_valid_ip.

(** No caller is queued on [ip_lock]. *)
Definition nobody_waits : World -> World := fun w => w.

End Pool.

(** ** Connection Relay (main.py 167-290, 415-423) *)

Module Relay.

Import PyStr State Run Ledger Pool.
Local Open Scope run_scope.

Definition crlf : string := String "013" (String "010" EmptyString).

Definition status_line (s : string) : string :=
  ("HTTP/1.1 " ++ s ++ crlf ++ "Connection: close" ++ crlf ++ crlf)%string.

Definition response_403 : string := status_line "403 Forbidden".
Definition response_502 : string := status_line "502 Bad Gateway".
Definition response_503 : string := status_line "503 Service Unavailable".

Definition len (data : string) : Z := Z.of_nat (String.length data).

(** The class [[a-zA-Z0-9.-]]. *)
Definition ishostchar (c : ascii) : bool :=
  isupper c || islower c || isdigit c || Ascii.eqb c "." || Ascii.eqb c "-".

(** [CONNECT\s+([a-zA-Z0-9.-]+):\d+] at the start of [s], case ignored.
    Each repetition is followed by a character outside its class, so the
    greedy match is the only one. *)
Definition match_connect (s : string) : option string :=
  match strip_prefix_nocase "CONNECT" s with
  | None => None
  | Some r1 =>
      match span isspace r1 with
      | (EmptyString, _) => None
      | (_, r2) =>
          match span ishostchar r2 with
          | (EmptyString, _) => None
          | (host, String ":" (String d _)) =>
              if isdigit d then Some host else None
          | _ => None
          end
      end
  end.

(** [Host:\s+([a-zA-Z0-9.-]+)] at the start of [s], case ignored. *)
Definition match_host (s : string) : option string :=
  match strip_prefix_nocase "HOST:" s with
  | None => None
  | Some r1 =>
      match span isspace r1 with
      | (EmptyString, _) => None
      | (_, r2) =>
          match span ishostchar r2 with
          | (EmptyString, _) => None
          | (host, _) => Some host
          end
      end
  end.

(** [re.search]: the leftmost position at which the pattern matches. *)
Fixpoint re_search (pattern : string -> option string) (s : string)
  : option string :=
  match pattern s with
  | Some g => Some g
  | None =>
      match s with
      | EmptyString => None
      | String _ r => re_search pattern r
      end
  end.

(** [_extract_hostname] (main.py 415-423).  The code searches
    [request_data.decode('utf-8', errors='ignore')]; on 7-bit bytes
    ([is_7bit]) the decoded text is the bytes themselves, and this is the
    input the definition stands for: other bytes may be dropped by the
    decoder, or decoded to characters that [\s] accepts. *)
Definition _extract_hostname (request_data : string) : option string :=
  match re_search match_connect request_data with
  | Some g => Some (lower g)
  | None =>
      match re_search match_host request_data with
      | Some g => Some (lower g)
      | None => None
      end
  end.

(** [hostname in allowed_domains], the set built from the configured
    list. *)
Definition member (hostname : string) (allowed_domains : list string) : bool :=
  existsb (String.eqb hostname) allowed_domains.

(** The two stream writers of a connection. *)
Inductive Sock : Type :=
| Client
| Remote.

Definition write_to (data : string) (x : Writer) : Writer :=
  mkWriter (written x ++ [data])%list (is_closing x).

Definition close_writer (x : Writer) : Writer := mkWriter (written x) true.

Definition writer_of (k : Sock) (c : Conn) : option Writer :=
  match k with
  | Client => Some (writer c)
  | Remote => remote_writer c
  end.

(** [x.write(data)]. *)
Definition write (k : Sock) (data : string) : M unit :=
  modify (with_conn (fun c =>
    match k with
    | Client => set_writer (write_to data (writer c)) c
    | Remote => set_remote_writer (option_map (write_to data) (remote_writer c)) c
    end)).

(** [if not x.is_closing(): x.close()]; for the remote side the handler
    also tests that the writer exists. *)
Definition close_if_open (k : Sock) : M unit :=
  modify (with_conn (fun c =>
    match k with
    | Client => set_writer (close_writer (writer c)) c
    | Remote => set_remote_writer (option_map close_writer (remote_writer c)) c
    end)).

(** [await x.drain()] with the outcome the environment gives it. *)
Definition drain (failure : option exn) : M unit :=
  match failure with
  | Some e => raise e
  | None => ret tt
  end.

Definition respond (response : string) : M unit :=
  write Client response ;;
  failure <- gets (fun w => env_client_drain (env w)) ;;
  drain failure.

Definition dst_of (d : Direction) : Sock :=
  match d with
  | ClientToRemote => Remote
  | RemoteToClient => Client
  end.

Inductive loop_exit : Type :=
| Continue
| Break.

(** One turn of the [while] loop of [_forward_and_track] (173-190). *)
Definition forward_iteration (dst : Sock) (st : PumpStep) : M loop_exit :=
  match step_read st with
  | ReadRaises e => raise e
  | ReadData data =>
      match data with
      | EmptyString => ret Break
      | _ =>
          let traffic_this_chunk := len data in
          tripped <- track_traffic traffic_this_chunk ;;
          if tripped then ret Break
          else
            write dst data ;;
            drain (step_drain st) ;;
            ret Continue
      end
  end.

(** The loop over what the source delivers; the end of the list is
    [src.at_eof()]. *)
Fixpoint forward_loop (dst : Sock) (steps : list PumpStep) : M unit :=
  match steps with
  | [] => ret tt
  | st :: rest =>
      l <- forward_iteration dst st ;;
      match l with
      | Continue => forward_loop dst rest
      | Break => ret tt
      end
  end.

Definition forward_handler (e : exn) : option (M unit) :=
  match e with
  | ConnectionResetError | BrokenPipeError | CancelledError => Some (ret tt)
  | _ => None
  end.

Definition _forward_and_track (dst : Sock) (steps : list PumpStep) : M unit :=
  try_finally
    (try_except (forward_loop dst steps) forward_handler)
    (close_if_open dst).

(** The two forwarding tasks under [asyncio.wait(..., FIRST_COMPLETED)]
    (272-276).  The schedule gives the order in which their reads
    complete.  A turn that goes on leaves both tasks running; any other
    turn ends its task, which closes its destination, and the handler
    resumes.  A schedule that runs out leaves the handler waiting, to be
    ended only by its own cancellation. *)
Fixpoint relay (schedule : list PumpStep) : M unit :=
  match schedule with
  | [] => raise CancelledError
  | st :: rest =>
      let dst := dst_of (step_dir st) in
      l <- try_except (forward_iteration dst st) (fun _ => Some (ret Break)) ;;
      match l with
      | Continue => relay rest
      | Break => close_if_open dst
      end
  end.

(** Lines 263-265. *)
Definition cancel_service : M unit :=
  task <- gets (fun w => server_task (self w)) ;;
  state <- gets (fun w => listener (out w)) ;;
  match task, state with
  | Some ListenerTask, Pending | Some ListenerTask, CancelRequested =>
      modify (with_out (set_listener CancelRequested)) ;;
      modify (with_self (set_server_task None))
  | _, _ => ret tt
  end.

Definition read_initial : M string :=
  r <- gets (fun w => env_first_read (env w)) ;;
  match r with
  | ReadData data => ret data
  | ReadRaises e => raise e
  end.

(** [asyncio.open_connection] under [wait_for] (243-244). *)
Definition open_connection : M unit :=
  failure <- gets (fun w => env_dial (env w)) ;;
  match failure with
  | Some e => raise e
  | None => modify (with_conn (set_remote_writer (Some fresh_writer)))
  end.

Definition mark_counted : M unit := modify (with_conn (set_is_counted true)).

(** Lines 242-276: from the dial on. *)
Definition serve (initial_data : string) : M unit :=
  open_connection ;;
  _increment_request_counter true ;;
  mark_counted ;;
  let traffic_initial_chunk := len initial_data in
  tripped <- track_traffic traffic_initial_chunk ;;
  if tripped then
    respond response_503 ;;
    close_if_open Remote ;;
    close_if_open Client ;;
    cancel_service
  else
    write Remote initial_data ;;
    failure <- gets (fun w => env_remote_drain (env w)) ;;
    drain failure ;;
    schedule <- gets (fun w => env_schedule (env w)) ;;
    relay schedule.

(** Lines 235-276: what the handler does with the answer of the pool. *)
Definition after_pool (initial_data : string)
           (endpoint : option string * option Z) : M unit :=
  let '(remote_ip, remote_port) := endpoint in
  if negb (truthy remote_ip) || negb (truthy_num remote_port) then
    _increment_request_counter false ;;
    mark_counted ;;
    respond response_502
  else
    serve initial_data.

(** The [try] block (214-276). *)
Definition handle_body : M unit :=
  initial_data <- read_initial ;;
  match initial_data with
  | EmptyString => ret tt
  | _ =>
      allowed_domains <-
        gets (fun w => get (allowed_domains (config (self w))) []) ;;
      match allowed_domains with
      | [] => respond response_403
      | _ =>
          let hostname := _extract_hostname initial_data in
          if negb (truthy hostname)
             || negb (member (get hostname "") allowed_domains) then
            respond response_403
          else
            endpoint <- get_valid_ip ;;
            after_pool initial_data endpoint
      end
  end.

(** The [except] clauses (278-283): [asyncio.TimeoutError] and
    [Exception] have the same body. *)
Definition handle_except (e : exn) : option (M unit) :=
  if is_Exception e then
    Some (counted <- gets (fun w => is_counted (conn w)) ;;
          when (negb counted) (_increment_request_counter false))
  else None.

(** The [finally] clause (284-290). *)
Definition handle_finally : M unit :=
  close_if_open Remote ;;
  close_if_open Client ;;
  _save_stats.

Definition handle_connection : M unit :=
  s <- get_stats ;;
  if quota_reached s then
    respond response_503 ;;
    close_if_open Client
  else
    try_finally (try_except handle_body handle_except) handle_finally.

End Relay.

(** ** The two traffic commands (main.py 545-568) *)

Module Commands.

Import PyStr Parser Format State Run Ledger.
Local Open Scope run_scope.





End Commands.

(** ** Concrete runs used as examples *)

Module Scenario.

Import PyStr State Run Ledger Pool Relay.
Local Open Scope run_scope.

(** The plugin right after [__init__] with [start_on_load]: default
    stats, no endpoint, the listener task pending. *)
Definition boot (cfg : Config) (e : Env) : World :=
  mkWorld e
          (mkPlugin cfg default_stats None None None (Some ListenerTask))
          (fresh_outside Pending)
          fresh_conn.

Definition with_stats (s : Stats) (w : World) : World :=
  with_self (set_stats s) w.

Definition with_endpoint (ip : string) (port validated : Z) (w : World) : World :=
  with_self (fun p => set_last_validation_time (Some validated)
                        (set_current_port (Some port)
                          (set_current_ip (Some ip) p))) w.

Definition stream {A : Type} (l : list A) (default : A) : nat -> A :=
  fun k => nth k l default.

Definition cfg_example : Config :=
  mkConfig (Some "http://lease.example/get?n=1") (Some ["example.com"])
           (Some 300) (Some 60).

Definition env_quiet : Env :=
  mkEnv (fun _ => "2024-05-01") (fun _ => 1000) (fun _ => ApiRaises)
        (fun _ _ _ => ProbeFails) (ReadData "") None None None []
        (fun _ => false) (fun _ => true).


(** An endpoint leased at second 1000 and revalidated with success at
    seconds 1200 and 1400, under a TTL of 300 and a validation interval
    of 60. *)
Definition env_revalidated : Env :=
  mkEnv (fun _ => "2024-05-01")
        (stream [1000; 1200; 1200; 1400; 1400] 0)
        (stream [ApiText "1.2.3.4:8080"] ApiRaises)
        (fun _ _ _ => Probe200)
        (ReadData "") None None None []
        (fun _ => false) (fun _ => true).

Definition three_calls : M (option string * option Z) :=
  get_valid_ip ;; get_valid_ip ;; get_valid_ip.


(** The current endpoint, validated 100 seconds ago, no longer answers
    and the leasing service is down. *)
Definition env_endpoint_lost : Env :=
  mkEnv (fun _ => "2024-05-01") (fun _ => 1100) (fun _ => ApiRaises)
        (fun _ _ _ => ProbeFails) (ReadData "") None None None []
        (fun _ => false) (fun _ => true).

Definition world_endpoint_lost : World :=
  with_endpoint "1.2.3.4" 8080 1000 (boot cfg_example env_endpoint_lost).

Definition request_for (host : string) : string :=
  ("GET http://" ++ host ++ "/ HTTP/1.1" ++ crlf
   ++ "Host: " ++ host ++ crlf ++ crlf)%string.

Definition connect_to (host : string) : string :=
  ("CONNECT " ++ host ++ ":443 HTTP/1.1" ++ crlf ++ crlf)%string.

Definition env_request (data : string) : Env :=
  mkEnv (fun _ => "1970-01-01") (fun _ => 1000)
        (stream [ApiText "1.2.3.4:8080"] ApiRaises)
        (fun _ _ _ => Probe200)
        (ReadData data) None None None []
        (fun _ => false) (fun _ => true).

(** A tunnel to a whitelisted host: the client sends three bytes, the
    upstream answers with three, then the client closes. *)
Definition env_tunnel : Env :=
  mkEnv (fun _ => "1970-01-01") (fun _ => 1000)
        (stream [ApiText "1.2.3.4:8080"] ApiRaises)
        (fun _ _ _ => Probe200)
        (ReadData (connect_to "example.com")) None None None
        [mkPumpStep ClientToRemote (ReadData "abc") None;
         mkPumpStep RemoteToClient (ReadData "xyz") None;
         mkPumpStep ClientToRemote (ReadData "") None]
        (fun _ => false) (fun _ => true).

(** A quota of 100 bytes of which 90 are used. *)
Definition stats_near_quota : Stats :=
  set_limit 100 (set_used 90 default_stats).

Definition world_near_quota : World :=
  with_stats stats_near_quota
    (boot cfg_example (env_request (request_for "example.com"))).

Definition chunk (d : Direction) (data : string) : PumpStep :=
  mkPumpStep d (ReadData data) None.

(** The same world once the upstream connection is open. *)
Definition world_relaying : World :=
  with_conn (set_remote_writer (Some fresh_writer)) world_near_quota.

(** A client that resets the connection before the answer is flushed. *)
Definition env_reset (data : string) : Env :=
  mkEnv (fun _ => "1970-01-01") (fun _ => 1000)
        (stream [ApiText "1.2.3.4:8080"] ApiRaises)
        (fun _ _ _ => Probe200)
        (ReadData data) (Some ConnectionResetError) None None []
        (fun _ => false) (fun _ => true).

End Scenario.

(** ** Observations of the world used to state further properties *)

Module Observe.

Import PyStr Parser Format State Run Ledger Pool Relay.

(** The two request counters of the day. *)
Definition outcomes (w : World) : Z * Z :=
  (today_requests_succeeded (stats (self w)),
   today_requests_failed (stats (self w))).

(** The calendar shows the recorded date at every look: no day change
    happens while the code under study runs. *)
Definition same_day (w : World) : Prop :=
  forall k, env_today (env w) k = today_date (stats (self w)).

(** The request counters together with the two handler locals that say
    how far the handler got. *)
Definition outcome_view (w : World) :=
  (env w, today_date (stats (self w)), outcomes w, is_counted (conn w),
   match remote_writer (conn w) with Some _ => true | None => false end).

(** As long as the day does not change, a run leaves the request
    counters and the handler's locals alone. *)
Definition quiet (w w' : World) : Prop :=
  same_day w -> same_day w' /\ outcome_view w' = outcome_view w.

(** How far a handler that started uncounted, with no upstream socket,
    may have moved the request counters: not at all, or one success with
    the upstream socket open, or one failure without it. *)
Definition counted_once (w w1 : World) : Prop :=
  let '(s, f) := outcomes w in
  (is_counted (conn w1) = false /\ outcomes w1 = (s, f)
   /\ remote_writer (conn w1) = None)
  \/ (is_counted (conn w1) = true /\ outcomes w1 = (s + 1, f)
      /\ remote_writer (conn w1) <> None)
  \/ (is_counted (conn w1) = true /\ outcomes w1 = (s, f + 1)
      /\ remote_writer (conn w1) = None).

(** The last thing done to the stats file was an attempt to write what
    the plugin has in memory: the file holds it if that write went
    through, and nothing is known of the file if it failed. *)
Definition persisted (w : World) : Prop :=
  exists earlier,
    disk (out w)
    = (if env_write_ok (env w) (List.length earlier)
       then Some (stats (self w)) else None) :: earlier.

(** The chunk a step delivers, empty when the read raises. *)
Definition chunk_of (st : PumpStep) : string :=
  match step_read st with
  | ReadData data => data
  | ReadRaises _ => EmptyString
  end.

Definition total_len (chunks : list string) : Z :=
  fold_right (fun data acc => len data + acc) 0 chunks.

(** What has been written to a socket so far. *)
Definition written_to (k : Sock) (w : World) : list string :=
  match writer_of k (conn w) with
  | Some x => written x
  | None => []
  end.

(** The traffic accounted between two worlds. *)
Definition accounted (w w' : World) : Z :=
  total_traffic_bytes (stats (self w'))
  - total_traffic_bytes (stats (self w)).

(** Between [w] and [w'] the chunks of the first [n] steps, and nothing
    else, were written to [dst]; the traffic counters grew by the size
    of these chunks, or by that and the size of the next chunk, which
    then has tripped the quota. *)
Definition conserved (dst : Sock) (steps : list PumpStep) (n : nat)
           (w w' : World) : Prop :=
  let sent := map chunk_of (firstn n steps) in
  written_to dst w' = (written_to dst w ++ sent)%list
  /\ today_traffic_bytes (stats (self w'))
     - today_traffic_bytes (stats (self w)) = accounted w w'
  /\ (accounted w w' = total_len sent
      \/ exists st,
           nth_error steps n = Some st
           /\ accounted w w' = total_len sent + len (chunk_of st)
           /\ quota_reached (stats (self w')) = true).

(** Ledger operations that happen by themselves while the proxy runs:
    no administrator command, and traffic that is a number of bytes. *)
Definition organic (o : Op) : bool :=
  match o with
  | OpTraffic n => 0 <=? n
  | OpSetLimit _ | OpSetUsed _ => false
  | _ => true
  end.

(** Operations whose arguments are byte counts, as the parser and
    [len] produce them. *)
Definition sensible (o : Op) : bool :=
  match o with
  | OpTraffic n | OpSetLimit n | OpSetUsed n => 0 <=? n
  | _ => true
  end.

(** The counters of a ledger are counts. *)
Definition counts_ok (s : Stats) : Prop :=
  0 <= today_ips_used s <= total_ips_used s
  /\ 0 <= today_requests_succeeded s
  /\ 0 <= today_requests_failed s
  /\ 0 <= today_traffic_bytes s
  /\ 0 <= total_traffic_bytes s
  /\ 0 <= total_traffic_limit_bytes s
  /\ Forall (fun n => 0 <= n) (daily_traffic_history s).

(** No upper-case letter in a string. *)
Definition no_upper (s : string) : bool :=
  all_chars (fun c => negb (isupper c)) s.

(** What is left of a string from position [k] on. *)
Fixpoint suffix_from (k : nat) (s : string) : string :=
  match k, s with
  | O, _ => s
  | S k', String _ r => suffix_from k' r
  | S _, EmptyString => EmptyString
  end.

(** A request that hides a CONNECT line behind a Host header. *)
Definition smuggled_connect : string :=
  ("GET / HTTP/1.1" ++ crlf ++ "Host: other.example" ++ crlf
   ++ "X-Note: connect  Example.COM:443" ++ crlf ++ crlf)%string.

(** What a request to the leasing service leaves alone. *)
Definition lease_view (w : World) :=
  (env w, config (self w), current_ip (self w), current_port (self w),
   last_validation_time (self w), n_probe (out w), n_time (out w),
   sleeps (out w)).

(** At most [a] requests to the leasing service, [p] probes, [t]
    readings of the clock and [s] sleeps of one second between two
    worlds. *)
Definition within (a p t s : nat) (w w' : World) : Prop :=
  (n_api (out w) <= n_api (out w') <= n_api (out w) + a)%nat
  /\ (n_probe (out w) <= n_probe (out w') <= n_probe (out w) + p)%nat
  /\ (n_time (out w) <= n_time (out w') <= n_time (out w) + t)%nat
  /\ (sleeps (out w) <= sleeps (out w') <= sleeps (out w) + s)%nat.

(** Between [w] and [w'] the endpoint [ip:port] was handed out by the
    leasing service, answered a probe, and was adopted as the current
    endpoint with the time of a clock reading. *)
Definition fresh_endpoint (w w' : World) (ip : string) (port : Z) : Prop :=
  ip <> EmptyString /\ port <> 0
  /\ (exists i, (n_api (out w) <= i < n_api (out w'))%nat
                /\ candidate (env_api (env w) i) = Some (ip, port))
  /\ (exists j, (n_probe (out w) <= j < n_probe (out w'))%nat
                /\ env_probe (env w) j ip port = Probe200)
  /\ current_ip (self w') = Some ip
  /\ current_port (self w') = Some port
  /\ (exists t, (n_time (out w) <= t < n_time (out w'))%nat
                /\ last_validation_time (self w')
                   = Some (env_time (env w) t)).

(** Between [w] and [w'] one of the awaits of the pool was cut short by
    the cancellation of the calling task. *)
Definition cancelled_between (w w' : World) : Prop :=
  (exists k, (n_api (out w) <= k < n_api (out w'))%nat
             /\ env_api (env w) k = ApiCancelled)
  \/ (exists k ip port,
        (n_probe (out w) <= k < n_probe (out w'))%nat
        /\ env_probe (env w) k ip port = ProbeCancelled)
  \/ (exists k, (sleeps (out w) <= k < sleeps (out w'))%nat
                /\ env_sleep_cancelled (env w) k = true).

(** No await of the pool is ever cancelled. *)
Definition uncancelled (e : Env) : Prop :=
  (forall k, env_api e k <> ApiCancelled)
  /\ (forall k ip port, env_probe e k ip port <> ProbeCancelled)
  /\ (forall k, env_sleep_cancelled e k = false).

(** What the retry loop (462-470) can end in. *)
Definition acquired (k : nat) (w : World)
           (x : outcome (option (option string * option Z)) * World) : Prop :=
  let w' := snd x in
  env w' = env w /\ config (self w') = config (self w)
  /\ within k k 1 k w w'
  /\ match fst x with
     | Return None =>
         current_ip (self w') = current_ip (self w)
         /\ current_port (self w') = current_port (self w)
         /\ last_validation_time (self w') = last_validation_time (self w)
         /\ sleeps (out w') = (sleeps (out w) + k)%nat
         /\ n_time (out w') = n_time (out w)
     | Return (Some (a, b)) =>
         exists ip port,
           a = Some ip /\ b = Some port /\ fresh_endpoint w w' ip port
     | Raise e =>
         e = CancelledError /\ cancelled_between w w'
         /\ current_ip (self w') = current_ip (self w)
         /\ current_port (self w') = current_port (self w)
         /\ last_validation_time (self w') = last_validation_time (self w)
     end.

(** Whether the text [_format_bytes] shows for [n] is read back as [n]
    by [_parse_traffic_string]. *)
Definition echoes_back (n : Z) : bool :=
  match _format_bytes n with
  | Return shown =>
      match _parse_traffic_string shown with
      | Return (Some m) => m =? n
      | _ => false
      end
  | Raise _ => false
  end.

(** Whether [k] times [1024^6] bytes are shown as the figure [1024 k]
    with the unit EB, and that text is read back as [1024 k] bytes. *)
Definition exabytes_as_petabytes (k : Z) : bool :=
  let shown := (str_int (1024 * k) ++ ".00 EB")%string in
  match _format_bytes (k * 1024 ^ 6), _parse_traffic_string shown with
  | Return t, Return (Some m) => (t =? shown)%string && (m =? 1024 * k)
  | _, _ => false
  end.

End Observe.

(* ================================================================== *)
(** * Part II: properties *)
(* ================================================================== *)

Import PyStr PyFloat Parser Format State Run Ledger Pool Relay Commands
       Scenario.

Example parse_examples :
  _parse_traffic_string "0.1KB" = Return (Some 102)
  /\ _parse_traffic_string " 1.5 gb " = Return (Some 1610612736)
  /\ _parse_traffic_string "5." = Return (Some 5)
  /\ _parse_traffic_string ".5" = Return None.
Proof. repeat split; vm_compute; reflexivity. Qed.


(** ** Strings *)

Section StringFacts.











End StringFacts.

(** ** Floats *)

Section FloatFacts.












End FloatFacts.

(** ** The traffic-string parser *)

Section ParserFacts.















End ParserFacts.

(** Claim C9: the parser maps "5GB", "1000MB", "2TB" and the bare number
    "123" to 5*1024^3, 1000*1024^2, 2*1024^4 and 123 bytes, and fails
    (returns [None]) on "abc" and on "-5GB". *)
Theorem parse_documented_values :
  _parse_traffic_string "5GB" = Return (Some (5 * 1024 ^ 3))
  /\ _parse_traffic_string "1000MB" = Return (Some (1000 * 1024 ^ 2))
  /\ _parse_traffic_string "2TB" = Return (Some (2 * 1024 ^ 4))
  /\ _parse_traffic_string "123" = Return (Some 123)
  /\ _parse_traffic_string "abc" = Return None
  /\ _parse_traffic_string "-5GB" = Return None.
Proof. repeat split; vm_compute; reflexivity. Qed.






(** ** The ledger *)

Section LedgerFacts.

Lemma track_traffic_eq (n : Z) (w : World) :
  track_traffic n w =
  (Return (quota_reached (add_bytes n (stats (self w)))),
   with_self (set_stats (add_bytes n (stats (self w)))) w).
Proof. reflexivity. Qed.

Lemma quota_reached_iff (s : Stats) :
  quota_reached s = true <->
  0 < total_traffic_limit_bytes s
  /\ total_traffic_limit_bytes s <= total_traffic_bytes s.
Proof.
  unfold quota_reached. rewrite andb_true_iff, Z.ltb_lt, Z.leb_le. tauto.
Qed.

Lemma run_traffic_totals (chunks : list Z) (w : World) :
  let s := stats (self w) in
  let s' := stats (self (snd (run_ops (map OpTraffic chunks) w))) in
  fst (run_ops (map OpTraffic chunks) w) = Return tt
  /\ total_traffic_bytes s' = total_traffic_bytes s + sum_bytes chunks
  /\ today_traffic_bytes s' = today_traffic_bytes s + sum_bytes chunks.
Proof.
  revert w; induction chunks as [|n r IH]; intros w; cbn.
  - repeat split; lia.
  - specialize (IH (with_self (set_stats (add_bytes n (stats (self w)))) w)).
    cbn in IH. destruct IH as (H1 & H2 & H3).
    fold (sum_bytes r).
    repeat split; [exact H1| rewrite H2; lia | rewrite H3; lia].
Qed.

End LedgerFacts.

Section LedgerClaims.

Lemma forward_iteration_stats (dst : Sock) (st : PumpStep) (c : ascii)
      (r : string) (w : World) :
  step_read st = ReadData (String c r) ->
  stats (self (snd (forward_iteration dst st w)))
  = add_bytes (len (String c r)) (stats (self w)).
Proof.
  intros H. unfold forward_iteration. rewrite H.
  unfold bind. rewrite track_traffic_eq.
  destruct (quota_reached _); [reflexivity|].
  cbn. destruct (step_drain st); reflexivity.
Qed.

(** Claim C4: accounting a chunk of [n] bytes leaves both
    [total_traffic_bytes] and [today_traffic_bytes] at their former value
    plus [n], and reports the quota as tripped exactly when a positive
    [total_traffic_limit_bytes] is set and reached after the addition.
    The block runs as one step under [stats_lock]; when callers are
    served one after another, in whatever order, nothing is lost or
    counted twice: the counters grow by the sum of the chunks. *)
Theorem traffic_accounting :
  (forall n w,
      exists tripped w',
        track_traffic n w = (Return tripped, w')
        /\ total_traffic_bytes (stats (self w'))
           = total_traffic_bytes (stats (self w)) + n
        /\ today_traffic_bytes (stats (self w'))
           = today_traffic_bytes (stats (self w)) + n
        /\ (tripped = true <->
            0 < total_traffic_limit_bytes (stats (self w'))
            /\ total_traffic_limit_bytes (stats (self w'))
               <= total_traffic_bytes (stats (self w'))))
  /\ (forall chunks w,
         let w' := snd (run_ops (map OpTraffic chunks) w) in
         total_traffic_bytes (stats (self w'))
         = total_traffic_bytes (stats (self w)) + sum_bytes chunks
         /\ today_traffic_bytes (stats (self w'))
            = today_traffic_bytes (stats (self w)) + sum_bytes chunks)
  /\ (forall chunks chunks' w,
         Permutation chunks chunks' ->
         stats (self (snd (run_ops (map OpTraffic chunks) w)))
         = stats (self (snd (run_ops (map OpTraffic chunks') w)))).
Proof.
  split; [|split].
  - intros n w. eexists; eexists. split; [apply track_traffic_eq|].
    split; [reflexivity|]. split; [reflexivity|].
    apply (quota_reached_iff (add_bytes n (stats (self w)))).
  - intros chunks w. cbv zeta.
    destruct (run_traffic_totals chunks w) as (_ & H2 & H3). now split.
  - intros chunks chunks' w Hperm. revert w.
    induction Hperm; intros w.
    + reflexivity.
    + cbn. apply IHHperm.
    + cbn.
      replace (add_bytes x (add_bytes y (stats (self w))))
        with (add_bytes y (add_bytes x (stats (self w)))); [reflexivity|].
      unfold add_bytes; cbn. f_equal; lia.
    + rewrite IHHperm1. apply IHHperm2.
Qed.

Lemma traffic_accounting_witness :
  stats (self (snd (run_ops (map OpTraffic [4096; 512; 100])
                            (boot cfg_example env_quiet))))
  = stats (self (snd (run_ops (map OpTraffic [100; 4096; 512])
                              (boot cfg_example env_quiet)))).
Proof.
  apply (proj2 (proj2 traffic_accounting)).
  apply Permutation_sym, (Permutation_cons_app [4096; 512] [] 100).
  rewrite app_nil_r. apply Permutation_refl.
Defined.

End LedgerClaims.

Section Rollover.

(** The world after a check that found the date changed. *)
Lemma check_rolls (w : World) :
  today_date (stats (self w)) <> env_today (env w) (n_today (out w)) ->
  _check_and_reset_daily_stats w =
  (Return tt,
   let today_str := env_today (env w) (n_today (out w)) in
   let s := reset_day today_str (stats (self w)) in
   mkWorld (env w) (set_stats s (self w))
           (set_disk (dumped w s :: disk (out w))
                     (set_n_today (S (n_today (out w))) (out w)))
           (conn w)).
Proof.
  intros H. apply String.eqb_neq in H.
  unfold _check_and_reset_daily_stats, bind, date_today, get_stats, gets.
  cbn. rewrite H. reflexivity.
Qed.

(** The world after a check on the recorded date. *)
Lemma check_same_day (w : World) :
  today_date (stats (self w)) = env_today (env w) (n_today (out w)) ->
  _check_and_reset_daily_stats w =
  (Return tt, with_out (set_n_today (S (n_today (out w)))) w).
Proof.
  intros H. apply String.eqb_eq in H.
  unfold _check_and_reset_daily_stats, bind, date_today, get_stats, gets.
  cbn. rewrite H. reflexivity.
Qed.

Lemma push_history_length (s : Stats) :
  (List.length (daily_traffic_history s) <= 3)%nat ->
  (List.length (push_history s) <= 3)%nat.
Proof.
  intros H. unfold push_history.
  destruct (3 <? _)%nat eqn:E.
  - destruct (daily_traffic_history s ++ [today_traffic_bytes s])%list
      as [|x l] eqn:El; [simpl; lia|].
    assert (List.length (x :: l) = S (List.length (daily_traffic_history s)))
      as Hl.
    { rewrite <- El, length_app. simpl. lia. }
    simpl in *. lia.
  - apply Nat.ltb_ge in E. exact E.
Qed.

Lemma check_history_length (w : World) :
  (List.length (history w) <= 3)%nat ->
  fst (_check_and_reset_daily_stats w) = Return tt
  /\ (List.length (history (snd (_check_and_reset_daily_stats w))) <= 3)%nat.
Proof.
  intros H.
  destruct (string_dec (today_date (stats (self w)))
                       (env_today (env w) (n_today (out w)))) as [E|E].
  - rewrite (check_same_day w E). split; [reflexivity|exact H].
  - rewrite (check_rolls w E). split; [reflexivity|].
    cbn. now apply push_history_length.
Qed.

Lemma run_op_history_length (o : Op) (w : World) :
  (List.length (history w) <= 3)%nat ->
  fst (run_op o w) = Return tt
  /\ (List.length (history (snd (run_op o w))) <= 3)%nat.
Proof.
  intros H. pose proof (check_history_length w H) as [Hr Hl].
  destruct o; cbn [run_op]; try (split; [reflexivity|exact H]).
  - split; assumption.
  - unfold _increment_request_counter, bind.
    destruct (_check_and_reset_daily_stats w) as [[[]|e] w1];
      [|discriminate].
    cbn in *. split; [reflexivity|].
    unfold history in *. destruct success; exact Hl.
  - unfold _increment_ip_usage_counter, bind.
    destruct (_check_and_reset_daily_stats w) as [[[]|e] w1];
      [|discriminate].
    cbn in *. split; [reflexivity|exact Hl].
Qed.

Lemma run_ops_history_length (ops : list Op) (w : World) :
  (List.length (history w) <= 3)%nat ->
  fst (run_ops ops w) = Return tt
  /\ (List.length (history (snd (run_ops ops w))) <= 3)%nat.
Proof.
  revert w; induction ops as [|o r IH]; intros w H.
  - split; [reflexivity|exact H].
  - cbn [run_ops]. unfold bind.
    destruct (run_op_history_length o w H) as [Hr Hl].
    destruct (run_op o w) as [[[]|e] w1]; [|discriminate].
    cbn in Hl. now apply IH.
Qed.

End Rollover.

Section RolloverClaims.

(** Claim C6: [daily_traffic_history] never holds more than three
    entries, whatever ledger operations run, from any ledger that
    respects the bound and so from the one a fresh plugin starts with; the
    oldest entry leaves first: from an empty history, four rollovers that
    close days of [a], [b], [c] and [d] bytes leave [[b; c; d]]. *)
Theorem history_bounded :
  (forall ops w,
      (List.length (history w) <= 3)%nat ->
      (List.length (history (snd (run_ops ops w))) <= 3)%nat)
  /\ (forall cfg e ops,
         (List.length (history (snd (run_ops ops (boot cfg e)))) <= 3)%nat)
  /\ (forall w a b c d,
         let date k := env_today (env w) (k + n_today (out w))%nat in
         history w = [] ->
         today_traffic_bytes (stats (self w)) = a ->
         today_date (stats (self w)) <> date 0%nat ->
         date 0%nat <> date 1%nat ->
         date 1%nat <> date 2%nat ->
         date 2%nat <> date 3%nat ->
         history (snd ((_check_and_reset_daily_stats ;;
                        day b ;; day c ;; day d)%run w))
         = [b; c; d]).
Proof.
  split; [|split].
  - intros ops w H. now apply run_ops_history_length.
  - intros cfg e ops. apply run_ops_history_length. cbn. lia.
  - intros w a b c d date Hh Ha H0 H1 H2 H3. unfold date in *. cbn in H0, H1, H2, H3.
    unfold history in Hh.
    unfold day, bind.
    rewrite (check_rolls w) by assumption. cbv beta iota zeta.
    rewrite track_traffic_eq.
    match goal with
    | |- context [_check_and_reset_daily_stats ?W] =>
        rewrite (check_rolls W) by (cbn; assumption)
    end.
    cbv beta iota zeta. rewrite track_traffic_eq.
    match goal with
    | |- context [_check_and_reset_daily_stats ?W] =>
        rewrite (check_rolls W) by (cbn; assumption)
    end.
    cbv beta iota zeta. rewrite track_traffic_eq.
    match goal with
    | |- context [_check_and_reset_daily_stats ?W] =>
        rewrite (check_rolls W) by (cbn; assumption)
    end.
    cbn. repeat (unfold push_history; cbn). rewrite Hh, Ha. cbn.
    repeat f_equal; lia.
Qed.

Lemma history_bounded_witness :
  (List.length
     (history (snd (run_ops [OpCheckDay; OpTraffic 7; OpRequest true]
                            (with_stats (set_used 10 default_stats)
                                        (boot cfg_example env_quiet)))))
   <= 3)%nat
  /\ history (snd ((_check_and_reset_daily_stats ;;
                    day 20 ;; day 30 ;; day 40)%run
                     (with_stats (add_bytes 10 default_stats)
                        (boot cfg_example
                           (mkEnv (stream ["2024-05-01"; "2024-05-02";
                                           "2024-05-03"; "2024-05-04"] "")
                                  (fun _ => 0) (fun _ => ApiRaises)
                                  (fun _ _ _ => ProbeFails)
                                  (ReadData "") None None None []
                                  (fun _ => false) (fun _ => true))))))
     = [20; 30; 40].
Proof.
  split.
  - apply (proj1 history_bounded). cbn. lia.
  - refine (proj2 (proj2 history_bounded) _ 10 20 30 40 _ _ _ _ _ _);
      cbn; try reflexivity; discriminate.
Defined.

(** Claim C7: two checks of the day with the calendar showing the same
    date run the reset at most once: the second call changes nothing in
    the plugin and does not write the stats file, and the two calls
    together write it at most once. *)
Theorem check_day_idempotent (w : World) :
  env_today (env w) (n_today (out w))
  = env_today (env w) (S (n_today (out w))) ->
  exists w1 w2,
    _check_and_reset_daily_stats w = (Return tt, w1)
    /\ _check_and_reset_daily_stats w1 = (Return tt, w2)
    /\ self w2 = self w1
    /\ disk (out w2) = disk (out w1)
    /\ conn w2 = conn w1
    /\ (List.length (disk (out w2)) <= S (List.length (disk (out w))))%nat.
Proof.
  intros Hdate.
  destruct (string_dec (today_date (stats (self w)))
                       (env_today (env w) (n_today (out w)))) as [E|E].
  - rewrite (check_same_day w E).
    eexists; eexists. split; [reflexivity|].
    rewrite check_same_day by (cbn; congruence).
    split; [reflexivity|]. cbn. repeat split; lia.
  - rewrite (check_rolls w E).
    eexists; eexists. split; [reflexivity|].
    rewrite check_same_day by (cbn; congruence).
    split; [reflexivity|]. cbn. repeat split; lia.
Qed.

Lemma check_day_idempotent_witness :
  exists w1 w2,
    _check_and_reset_daily_stats (boot cfg_example env_quiet) = (Return tt, w1)
    /\ _check_and_reset_daily_stats w1 = (Return tt, w2)
    /\ self w2 = self w1
    /\ disk (out w2) = disk (out w1)
    /\ conn w2 = conn w1
    /\ (List.length (disk (out w2))
        <= S (List.length (disk (out (boot cfg_example env_quiet)))))%nat.
Proof.
  apply (check_day_idempotent (boot cfg_example env_quiet)). reflexivity.
Defined.

End RolloverClaims.

(** ** Running plugin code: generic rules *)

Section MonadRules.

Context (R : World -> World -> Prop).
Hypothesis R_refl : forall w, R w w.
Hypothesis R_trans : forall a b c, R a b -> R b c -> R a c.

Lemma preserves_ret {A : Type} (a : A) : preserves R (ret a).
Proof. intros w. apply R_refl. Qed.

Lemma preserves_raise {A : Type} (e : exn) : preserves R (@raise A e).
Proof. intros w. apply R_refl. Qed.

Lemma preserves_gets {A : Type} (f : World -> A) : preserves R (gets f).
Proof. intros w. apply R_refl. Qed.

Lemma preserves_modify (f : World -> World) :
  (forall w, R w (f w)) -> preserves R (modify f).
Proof. intros H w. apply H. Qed.

Lemma preserves_bind {A B : Type} (m : M A) (k : A -> M B) :
  preserves R m -> (forall a, preserves R (k a)) -> preserves R (bind m k).
Proof.
  intros Hm Hk w. unfold bind. specialize (Hm w).
  destruct (m w) as [[a|e] w1]; cbn in *.
  - eapply R_trans; [exact Hm|apply Hk].
  - exact Hm.
Qed.

Lemma preserves_try_except {A : Type} (m : M A) (h : exn -> option (M A)) :
  preserves R m -> (forall e k, h e = Some k -> preserves R k) ->
  preserves R (try_except m h).
Proof.
  intros Hm Hh w. unfold try_except. specialize (Hm w).
  destruct (m w) as [[a|e] w1]; cbn in *; [exact Hm|].
  destruct (h e) as [k|] eqn:E; [|exact Hm].
  eapply R_trans; [exact Hm|apply (Hh e k E)].
Qed.

Lemma preserves_try_finally {A : Type} (m : M A) (fin : M unit) :
  preserves R m -> preserves R fin -> preserves R (try_finally m fin).
Proof.
  intros Hm Hf w. unfold try_finally. specialize (Hm w).
  destruct (m w) as [r w1]. specialize (Hf w1).
  destruct (fin w1) as [[u|e] w2]; cbn in *; eapply R_trans; eauto.
Qed.

End MonadRules.

(** Running [bind] when the first part returns. *)
Lemma bind_returns {A B : Type} (m : M A) (k : A -> M B) (w w1 : World) (a : A) :
  m w = (Return a, w1) -> bind m k w = k a w1.
Proof. intros H. unfold bind. now rewrite H. Qed.

(** ** The pool *)

Section KeepRules.

Context {V : Type} (f : World -> V).

Lemma keeps_refl (w : World) : keeps f w w.
Proof. reflexivity. Qed.

Lemma keeps_trans (a b c : World) : keeps f a b -> keeps f b c -> keeps f a c.
Proof. unfold keeps. congruence. Qed.

Lemma keeps_ret {A : Type} (a : A) : preserves (keeps f) (ret a).
Proof. apply preserves_ret, keeps_refl. Qed.

Lemma keeps_gets {A : Type} (g : World -> A) : preserves (keeps f) (gets g).
Proof. apply preserves_gets, keeps_refl. Qed.

Lemma keeps_bind {A B : Type} (m : M A) (k : A -> M B) :
  preserves (keeps f) m -> (forall a, preserves (keeps f) (k a)) ->
  preserves (keeps f) (bind m k).
Proof. apply preserves_bind, keeps_trans. Qed.

End KeepRules.

(** Walks through plugin code made of [bind], [ret], [gets], [modify] and
    case distinctions to show that it keeps an observation; calls of
    functions with a lemma in the hint database [keep] are closed with
    it. *)
Create HintDb keep discriminated.

Ltac keep_walk :=
  repeat first
    [ solve [auto with keep nocore]
    | apply keeps_ret
    | apply keeps_gets
    | apply keeps_bind; [|intros]
    | solve [apply preserves_modify; intros; reflexivity]
    | solve [intros ?; reflexivity]
    | match goal with
      | |- preserves _ (if ?b then _ else _) => destruct b
      | |- preserves _ (match ?x with _ => _ end) => destruct x
      | |- preserves _ (let '(_, _) := ?x in _) => destruct x
      end ].

Section PoolFrames.

Lemma check_keeps_view : preserves (keeps relay_view) _check_and_reset_daily_stats.
Proof.
  intros w.
  destruct (string_dec (today_date (stats (self w)))
                       (env_today (env w) (n_today (out w)))) as [E|E].
  - rewrite (check_same_day w E). reflexivity.
  - rewrite (check_rolls w E). reflexivity.
Qed.

Hint Resolve check_keeps_view : keep.

(** A ledger update that follows the check of the day. *)
Lemma counter_keeps_view (update : Stats -> Stats) :
  (forall s, total_traffic_bytes (update s) = total_traffic_bytes s) ->
  (forall s, total_traffic_limit_bytes (update s) = total_traffic_limit_bytes s) ->
  preserves (keeps relay_view)
    (_check_and_reset_daily_stats ;;
     s <- get_stats ;; put_stats (update s) ;; _save_stats)%run.
Proof.
  intros H1 H2 w. unfold bind.
  pose proof (check_keeps_view w) as Hc.
  destruct (_check_and_reset_daily_stats w) as [[[]|e] w1]; [|exact Hc].
  cbn in *. unfold keeps, relay_view in *. cbn. rewrite H1, H2. exact Hc.
Qed.

Lemma request_counter_keeps_view (success : bool) :
  preserves (keeps relay_view) (_increment_request_counter success).
Proof.
  apply counter_keeps_view; intros s; destruct success; reflexivity.
Qed.

Lemma ip_counter_keeps_view :
  preserves (keeps relay_view) _increment_ip_usage_counter.
Proof. apply counter_keeps_view; intros s; reflexivity. Qed.

Hint Resolve ip_counter_keeps_view : keep.

Lemma get_new_ip_keeps_view : preserves (keeps relay_view) get_new_ip.
Proof. unfold get_new_ip. keep_walk. Qed.

Hint Resolve get_new_ip_keeps_view : keep.

Lemma acquire_keeps_view (attempts : nat) :
  preserves (keeps relay_view) (acquire attempts).
Proof.
  induction attempts as [|k IH]; cbn [acquire]; keep_walk.
Qed.

Hint Resolve acquire_keeps_view : keep.

Lemma acquire_or_give_up_keeps_view :
  preserves (keeps relay_view) acquire_or_give_up.
Proof. unfold acquire_or_give_up. keep_walk. Qed.

Hint Resolve acquire_or_give_up_keeps_view : keep.

Lemma get_valid_ip_keeps_view : preserves (keeps relay_view) get_valid_ip.
Proof. unfold get_valid_ip. keep_walk. Qed.

End PoolFrames.

Section LeaseCounting.







Lemma get_new_ip_eq (w : World) :
  get_new_ip w =
  if api_configured w then
    let w1 := with_out (fun o => set_n_api (S (n_api o)) o) w in
    match candidate (env_api (env w) (n_api (out w))) with
    | Some (ip, port) =>
        (_increment_ip_usage_counter ;; ret (Some ip, Some port))%run w1
    | None =>
        (match env_api (env w) (n_api (out w)) with
         | ApiCancelled => Raise CancelledError
         | _ => Return (None, None)
         end, w1)
    end
  else (Return (None, None), w).
Proof.
  unfold get_new_ip, api_configured, candidate, bind at 1, gets. cbn.
  destruct (truthy (api_url (config (self w)))); cbn; [|reflexivity].
  destruct (contains "YOUR_TOKEN" _); cbn; [reflexivity|].
  unfold bind at 1, http_get_api. cbn.
  destruct (env_api (env w) (n_api (out w))) as [body| |];
    [|reflexivity|reflexivity].
  destruct (contains ":" (strip body)); [|reflexivity].
  destruct (split ":" (strip body)) as [|ip [|port_str [|x l]]];
    try reflexivity.
  destruct (py_int port_str); reflexivity.
Qed.

(** What [_increment_ip_usage_counter] does to the world. *)
Lemma ip_counter_run (w : World) :
  exists w',
    _increment_ip_usage_counter w = (Return tt, w')
    /\ env w' = env w
    /\ n_api (out w') = n_api (out w)
    /\ n_probe (out w') = n_probe (out w)
    /\ n_time (out w') = n_time (out w)
    /\ total_ips_used (stats (self w')) = total_ips_used (stats (self w)) + 1
    /\ today_ips_used (stats (self w'))
       = (if (today_date (stats (self w))
              =? env_today (env w) (n_today (out w)))%string
          then today_ips_used (stats (self w)) else 0) + 1.
Proof.
  unfold _increment_ip_usage_counter.
  destruct (string_dec (today_date (stats (self w)))
                       (env_today (env w) (n_today (out w)))) as [E|E].
  - rewrite (bind_returns _ _ _ _ _ (check_same_day w E)).
    eexists. split; [reflexivity|]. cbn.
    apply String.eqb_eq in E. rewrite E. repeat split; reflexivity.
  - rewrite (bind_returns _ _ _ _ _ (check_rolls w E)).
    eexists. split; [reflexivity|]. cbn.
    apply String.eqb_neq in E. rewrite E. repeat split; reflexivity.
Qed.







End LeaseCounting.

Section PoolClaims.

(** What the code does about expiry: the age it compares with the TTL is
    counted from [last_validation_time], and an endpoint older than that
    is dropped, both fields at once, before a new one is sought. *)
Lemma expiry_counts_from_last_validation (w : World) (ip : string)
      (port validated : Z) :
  current_ip (self w) = Some ip -> truthy (Some ip) = true ->
  current_port (self w) = Some port -> port <> 0 ->
  last_validation_time (self w) = Some validated -> validated <> 0 ->
  let ttl := get (ip_expiration_time (config (self w))) 300 in
  let now := env_time (env w) (n_time (out w)) in
  0 < ttl -> ttl < now - validated ->
  get_valid_ip w =
  acquire_or_give_up
    (with_self (set_current_port None)
       (with_self (set_current_ip None)
          (with_out (fun o => set_n_time (S (n_time o)) o) w))).
Proof.
  intros Hip Htr Hport Hp0 Hval Hv0 ttl now Httl Hage.
  unfold get_valid_ip, bind at 1, gets. cbn.
  rewrite Hip, Hport, Hval. cbn [truthy_num]. rewrite Htr.
  apply Z.eqb_neq in Hp0, Hv0. rewrite Hp0, Hv0. cbn.
  fold ttl. fold now.
  apply Z.ltb_lt in Httl, Hage. rewrite Httl, Hage. reflexivity.
Qed.

(** A successful revalidation renews the time stamp the expiry is
    counted from, so that the age seen by the next call starts again at
    zero, however long ago the endpoint was leased. *)
Lemma revalidation_renews (w : World) (ip : string) (port validated : Z) :
  current_ip (self w) = Some ip -> truthy (Some ip) = true ->
  current_port (self w) = Some port -> port <> 0 ->
  last_validation_time (self w) = Some validated -> validated <> 0 ->
  let ttl := get (ip_expiration_time (config (self w))) 300 in
  let interval := get (validation_interval (config (self w))) 60 in
  let now := env_time (env w) (n_time (out w)) in
  interval <= now - validated <= ttl ->
  env_probe (env w) (n_probe (out w)) ip port = Probe200 ->
  exists w',
    get_valid_ip w = (Return (Some ip, Some port), w')
    /\ last_validation_time (self w')
       = Some (env_time (env w) (S (n_time (out w))))
    /\ n_api (out w') = n_api (out w)
    /\ stats (self w') = stats (self w).
Proof.
  intros Hip Htr Hport Hp0 Hval Hv0 ttl interval now Hage Hprobe.
  unfold get_valid_ip, bind at 1, gets. cbn.
  rewrite Hip, Hport, Hval. cbn [truthy_num]. rewrite Htr.
  apply Z.eqb_neq in Hp0, Hv0. rewrite Hp0, Hv0. cbn.
  fold ttl. fold interval. fold now.
  assert ((ttl <? now - validated) = false) as -> by (apply Z.ltb_ge; lia).
  rewrite andb_false_r.
  assert ((now - validated <? interval) = false) as ->
      by (apply Z.ltb_ge; lia).
  unfold bind at 1, is_ip_valid, bind at 1, probe. cbn. rewrite Hprobe. cbn.
  eexists. split.
  { unfold current, gets. cbn. rewrite Hip, Hport. reflexivity. }
  repeat split.
Qed.

(** Claim C1 (the code departs from it): with a TTL of 300 seconds and a
    validation interval of 60, an endpoint leased at second 1000 and
    revalidated at second 1200 is handed out again at second 1400, 400
    seconds after it was acquired, after a mere revalidation: no new
    lease is requested.  The claim wants it discarded. *)
Theorem stale_endpoint_survives_revalidation :
  let w0 := boot cfg_example env_revalidated in
  let w1 := snd (get_valid_ip w0) in
  let w2 := snd (get_valid_ip w1) in
  let now := env_time (env w2) (n_time (out w2)) in
  let w3 := snd (get_valid_ip w2) in
  get (ip_expiration_time (config (self w0))) 300 = 300
  /\ fst (get_valid_ip w0) = Return (Some "1.2.3.4", Some 8080)
  /\ last_validation_time (self w1) = Some 1000
  /\ n_api (out w1) = 1%nat
  /\ now = 1400
  /\ 300 < now - 1000
  /\ fst (get_valid_ip w2) = Return (Some "1.2.3.4", Some 8080)
  /\ n_api (out w3) = 1%nat
  /\ total_ips_used (stats (self w3)) = 1.
Proof. vm_compute. repeat split; reflexivity. Qed.




(** Claim C5 (the code departs from it): when the current endpoint fails
    its revalidation and no replacement is found, [get_valid_ip] leaves
    [current_ip] at [None] while [current_port] still holds the port of
    the endpoint just dropped. *)
Theorem failed_revalidation_keeps_port :
  let w' := snd (get_valid_ip world_endpoint_lost) in
  current_ip (self world_endpoint_lost) = Some "1.2.3.4"
  /\ current_port (self world_endpoint_lost) = Some 8080
  /\ fst (get_valid_ip world_endpoint_lost) = Return (None, None)
  /\ current_ip (self w') = None
  /\ current_port (self w') = Some 8080.
Proof. vm_compute. repeat split; reflexivity. Qed.

Lemma acquire_unconfigured (attempts : nat) (w : World) :
  api_configured w = false ->
  (forall k, env_sleep_cancelled (env w) k = false) ->
  exists w', acquire attempts w = (Return None, w') /\ self w' = self w.
Proof.
  revert w; induction attempts as [|k IH]; intros w Hcfg Hsleep.
  - exists w. split; reflexivity.
  - assert (get_new_ip w = (Return (None, None), w)) as Hnew
        by now rewrite get_new_ip_eq, Hcfg.
    change (acquire (S k) w) with
      (('(new_ip, new_port) <- get_new_ip ;;
        valid <- (if truthy new_ip && truthy_num new_port
                  then is_ip_valid (get new_ip "") (get new_port 0)
                  else ret false) ;;
        if valid then
          set_ip new_ip ;; set_port new_port ;;
          now <- time_time ;; set_validated (Some now) ;;
          r <- current ;; ret (Some r)
        else sleep_1 ;; acquire k)%run w).
    rewrite (bind_returns _ _ _ _ _ Hnew). cbn [truthy andb].
    rewrite (bind_returns _ _ w w false) by reflexivity.
    set (w1 := with_out (fun o => set_sleeps (S (sleeps o)) o) w).
    assert (sleep_1 w = (Return tt, w1)) as Hs.
    { unfold sleep_1, bind. now rewrite Hsleep. }
    rewrite (bind_returns _ _ _ _ _ Hs).
    destruct (IH w1 Hcfg Hsleep) as (w' & Hrun & Hself).
    exists w'. split; [exact Hrun|exact Hself].
Qed.

(** The sibling paths do replace the endpoint as a whole: [switch_ip]
    clears both fields before it asks for a new endpoint, and both are
    still unset when none is found. *)
Lemma switch_ip_clears_both (w : World) :
  api_configured w = false ->
  (forall k, env_sleep_cancelled (env w) k = false) ->
  exists w',
    switch_ip nobody_waits w = (Return (None, None), w')
    /\ current_ip (self w') = None /\ current_port (self w') = None.
Proof.
  intros Hcfg Hsleep.
  set (w1 := with_self (set_current_port None)
               (with_self (set_current_ip None) w)).
  destruct (acquire_unconfigured 3 w1 Hcfg Hsleep) as (w' & Hrun & Hself).
  exists w'. rewrite Hself. split; [|split; reflexivity].
  assert (switch_ip nobody_waits w = acquire_or_give_up w1) as ->
      by reflexivity.
  unfold acquire_or_give_up.
  rewrite (bind_returns _ _ w1 w1 None) by reflexivity.
  cbn [truthy negb].
  rewrite (bind_returns _ _ _ _ _ Hrun).
  rewrite (bind_returns _ _ w' w' None) by (unfold gets; now rewrite Hself).
  reflexivity.
Qed.

End PoolClaims.

(** ** The connection handler *)

Section HostnameFacts.

Lemma match_connect_nonempty (s g : string) :
  match_connect s = Some g -> g <> EmptyString.
Proof.
  unfold match_connect.
  destruct (strip_prefix_nocase "CONNECT" s) as [r1|]; [|discriminate].
  destruct (span isspace r1) as [[|c sp] r2]; [discriminate|].
  destruct (span ishostchar r2) as [[|h host] r3]; [discriminate|].
  destruct r3 as [|c3 r3]; [discriminate|].
  destruct c3 as [[] [] [] [] [] [] [] []]; try discriminate.
  destruct r3 as [|d r3]; [discriminate|].
  destruct (isdigit d); [|discriminate].
  intros H; inversion H; discriminate.
Qed.

Lemma match_host_nonempty (s g : string) :
  match_host s = Some g -> g <> EmptyString.
Proof.
  unfold match_host.
  destruct (strip_prefix_nocase "HOST:" s) as [r1|]; [|discriminate].
  destruct (span isspace r1) as [[|c sp] r2]; [discriminate|].
  destruct (span ishostchar r2) as [[|h host] r3]; [discriminate|].
  intros H; inversion H; discriminate.
Qed.

Lemma re_search_some (pattern : string -> option string) (s g : string) :
  re_search pattern s = Some g -> exists t, pattern t = Some g.
Proof.
  induction s as [|c r IH]; cbn.
  - destruct (pattern EmptyString) eqn:E; [|discriminate].
    intros H; inversion H; subst. now exists EmptyString.
  - destruct (pattern (String c r)) eqn:E.
    + intros H; inversion H; subst. now exists (String c r).
    + exact IH.
Qed.

Lemma extract_hostname_nonempty (request_data h : string) :
  _extract_hostname request_data = Some h -> truthy (Some h) = true.
Proof.
  unfold _extract_hostname.
  destruct (re_search match_connect request_data) as [g|] eqn:E1.
  - intros H; inversion H; subst h.
    destruct (re_search_some _ _ _ E1) as [t Ht].
    apply match_connect_nonempty in Ht. destruct g; [congruence|reflexivity].
  - destruct (re_search match_host request_data) as [g|] eqn:E2;
      [|discriminate].
    intros H; inversion H; subst h.
    destruct (re_search_some _ _ _ E2) as [t Ht].
    apply match_host_nonempty in Ht. destruct g; [congruence|reflexivity].
Qed.

Example extract_hostname_examples :
  _extract_hostname (request_for "example.com") = Some "example.com"
  /\ _extract_hostname (request_for "Other.COM") = Some "other.com"
  /\ _extract_hostname (connect_to "example.com") = Some "example.com"
  /\ _extract_hostname "GET / HTTP/1.1" = None.
Proof. repeat split; vm_compute; reflexivity. Qed.

End HostnameFacts.

Lemma nonempty_case {A : Type} (d : string) (a b : A) :
  d <> EmptyString ->
  match d with EmptyString => a | String _ _ => b end = b.
Proof. destruct d; [congruence|reflexivity]. Qed.

Section Whitelist.

Variable w : World.
Variable data : string.

Hypothesis quota_left : quota_reached (stats (self w)) = false.
Hypothesis first_read : env_first_read (env w) = ReadData data.
Hypothesis some_data : data <> EmptyString.

(** The handler up to the whitelist test, for a request that fails it. *)
Lemma handle_body_rejects :
  get (allowed_domains (config (self w))) [] = []
  \/ _extract_hostname data = None
  \/ (exists h, _extract_hostname data = Some h
                /\ member h (get (allowed_domains (config (self w))) []) = false) ->
  handle_body w = respond response_403 w.
Proof.
  intros Hrej. unfold handle_body.
  assert (read_initial w = (Return data, w)) as Hread.
  { unfold read_initial, bind, gets. cbn. now rewrite first_read. }
  rewrite (bind_returns _ _ _ _ _ Hread).
  rewrite (nonempty_case data _ _ some_data).
  rewrite (bind_returns _ _ w w (get (allowed_domains (config (self w))) []))
    by reflexivity.
  destruct (get (allowed_domains (config (self w))) []) as [|a l] eqn:Ea;
    [reflexivity|].
  destruct Hrej as [H|[H|(h & H & Hm)]]; [discriminate| |].
  - rewrite H. reflexivity.
  - rewrite H. cbn [get]. rewrite Hm. cbn. rewrite orb_true_r. reflexivity.
Qed.

(** The handler up to the whitelist test, for a request that passes. *)
Lemma handle_body_accepts (h : string) :
  _extract_hostname data = Some h ->
  member h (get (allowed_domains (config (self w))) []) = true ->
  handle_body w = (endpoint <- get_valid_ip ;; after_pool data endpoint)%run w.
Proof.
  intros Hh Hm. unfold handle_body.
  assert (read_initial w = (Return data, w)) as Hread.
  { unfold read_initial, bind, gets. cbn. now rewrite first_read. }
  rewrite (bind_returns _ _ _ _ _ Hread).
  rewrite (nonempty_case data _ _ some_data).
  rewrite (bind_returns _ _ w w (get (allowed_domains (config (self w))) []))
    by reflexivity.
  destruct (get (allowed_domains (config (self w))) []) as [|a l] eqn:Ea;
    [discriminate|].
  rewrite Hh. cbn [get]. rewrite Hm.
  rewrite (extract_hostname_nonempty data h Hh). reflexivity.
Qed.

Lemma handle_connection_unfold :
  handle_connection w
  = try_finally (try_except handle_body handle_except) handle_finally w.
Proof.
  unfold handle_connection.
  rewrite (bind_returns _ _ w w (stats (self w))) by reflexivity.
  now rewrite quota_left.
Qed.

End Whitelist.

Section WhitelistClaim.

Lemma respond_eq (response : string) (w : World) :
  respond response w
  = (match env_client_drain (env w) with
     | None => Return tt
     | Some e => Raise e
     end,
     with_conn (fun c => set_writer (write_to response (writer c)) c) w).
Proof.
  unfold respond, bind, write, modify, gets, drain. cbn.
  destruct (env_client_drain (env w)); reflexivity.
Qed.

(** A request counter changes the ledger and nothing else. *)
Lemma request_counter_shape (success : bool) (w : World) :
  exists s d n,
    _increment_request_counter success w = (Return tt, ledger_touch s d n w)
    /\ total_traffic_bytes s = total_traffic_bytes (stats (self w))
    /\ total_traffic_limit_bytes s = total_traffic_limit_bytes (stats (self w)).
Proof.
  unfold _increment_request_counter.
  destruct (string_dec (today_date (stats (self w)))
                       (env_today (env w) (n_today (out w)))) as [E|E].
  - rewrite (bind_returns _ _ _ _ _ (check_same_day w E)).
    eexists; eexists; eexists. split; [reflexivity|].
    destruct success; split; reflexivity.
  - rewrite (bind_returns _ _ _ _ _ (check_rolls w E)).
    eexists; eexists; eexists. split; [reflexivity|].
    destruct success; split; reflexivity.
Qed.




End WhitelistClaim.

Section QuotaBreach.

Lemma request_counter_run (success : bool) (w : World) :
  exists w',
    _increment_request_counter success w = (Return tt, w')
    /\ relay_view w' = relay_view w.
Proof.
  unfold _increment_request_counter.
  destruct (string_dec (today_date (stats (self w)))
                       (env_today (env w) (n_today (out w)))) as [E|E].
  - rewrite (bind_returns _ _ _ _ _ (check_same_day w E)).
    eexists. split; [reflexivity|]. destruct success; reflexivity.
  - rewrite (bind_returns _ _ _ _ _ (check_rolls w E)).
    eexists. split; [reflexivity|]. destruct success; reflexivity.
Qed.

Lemma relay_view_fields (w w' : World) :
  relay_view w' = relay_view w ->
  env w' = env w /\ conn w' = conn w /\ config (self w') = config (self w)
  /\ server_task (self w') = server_task (self w)
  /\ listener (out w') = listener (out w)
  /\ total_traffic_bytes (stats (self w')) = total_traffic_bytes (stats (self w))
  /\ total_traffic_limit_bytes (stats (self w'))
     = total_traffic_limit_bytes (stats (self w)).
Proof. unfold relay_view. intros H. inversion H. repeat split; assumption. Qed.

(** Lines 242-266 when the initial chunk trips the quota. *)
Lemma serve_quota_trip (w : World) (data : string) :
  env_dial (env w) = None ->
  server_task (self w) = Some ListenerTask ->
  listener (out w) = Pending ->
  0 < total_traffic_limit_bytes (stats (self w)) ->
  total_traffic_limit_bytes (stats (self w))
  <= total_traffic_bytes (stats (self w)) + len data ->
  exists r w',
    serve data w = (r, w')
    /\ written (writer (conn w'))
       = (written (writer (conn w)) ++ [response_503])%list
    /\ (exists rw, remote_writer (conn w') = Some rw /\ written rw = [])
    /\ is_counted (conn w') = true
    /\ total_traffic_bytes (stats (self w'))
       = total_traffic_bytes (stats (self w)) + len data
    /\ match env_client_drain (env w) with
       | None => r = Return tt
                 /\ server_task (self w') = None
                 /\ listener (out w') = CancelRequested
       | Some e => r = Raise e
                   /\ server_task (self w') = Some ListenerTask
                   /\ listener (out w') = Pending
       end.
Proof.
  intros Hdial Htask Hlisten Hpos Hreach.
  unfold serve.
  assert (open_connection w
          = (Return tt, with_conn (set_remote_writer (Some fresh_writer)) w))
    as Hopen.
  { unfold open_connection, bind, gets. cbn. now rewrite Hdial. }
  rewrite (bind_returns _ _ _ _ _ Hopen).
  destruct (request_counter_run true
              (with_conn (set_remote_writer (Some fresh_writer)) w))
    as (w1 & Hcount & Hview).
  rewrite (bind_returns _ _ _ _ _ Hcount).
  apply relay_view_fields in Hview.
  destruct Hview as (He & Hc & _ & Ht & Hl & Htot & Hlim).
  cbn in He, Hc, Ht, Hl, Htot, Hlim.
  unfold mark_counted.
  rewrite (bind_returns _ _ w1 (with_conn (set_is_counted true) w1) tt)
    by reflexivity.
  rewrite (bind_returns _ _ _ _ _ (track_traffic_eq _ _)).
  assert (quota_reached
            (add_bytes (len data)
               (stats (self (with_conn (set_is_counted true) w1)))) = true)
    as Htrip.
  { apply quota_reached_iff. cbn. rewrite Hlim, Htot. lia. }
  rewrite Htrip.
  unfold bind at 1. rewrite respond_eq.
  cbn [env with_conn with_self]. rewrite He.
  destruct (env_client_drain (env w)) as [e|].
  - eexists; eexists. split; [reflexivity|]. cbn.
    rewrite Hc, Htot, Ht, Hl. cbn.
    repeat split; try assumption. exists fresh_writer. split; reflexivity.
  - unfold bind, close_if_open, modify, cancel_service, gets. cbn.
    rewrite Ht, Htask, Hl, Hlisten. cbn.
    eexists; eexists. split; [reflexivity|]. cbn. rewrite Hc, Htot. cbn.
    repeat split. exists (close_writer fresh_writer). split; reflexivity.
Qed.

End QuotaBreach.

Section RelayLoop.

Lemma forward_iteration_keeps_service (dst : Sock) (st : PumpStep) :
  preserves (keeps service_view) (forward_iteration dst st).
Proof.
  unfold forward_iteration, track_traffic, drain.
  destruct (step_read st) as [[|c r]|e]; keep_walk.
Qed.

Lemma forward_loop_keeps_service (dst : Sock) (steps : list PumpStep) :
  preserves (keeps service_view) (forward_loop dst steps).
Proof.
  induction steps as [|st rest IH]; cbn [forward_loop].
  - apply keeps_ret.
  - apply keeps_bind; [apply forward_iteration_keeps_service|].
    intros [|]; [exact IH|apply keeps_ret].
Qed.

(** No run of a forwarding loop, however it ends, touches the listening
    service. *)
Lemma forward_and_track_keeps_service (dst : Sock) (steps : list PumpStep) :
  preserves (keeps service_view) (_forward_and_track dst steps).
Proof.
  unfold _forward_and_track.
  apply (preserves_try_finally _ (keeps_trans _)).
  - apply (preserves_try_except _ (keeps_trans _)).
    + apply forward_loop_keeps_service.
    + intros e k. destruct e; cbn; intros H; inversion H; apply keeps_ret.
  - intros w. destruct dst; reflexivity.
Qed.

Lemma relay_keeps_service (schedule : list PumpStep) :
  preserves (keeps service_view) (relay schedule).
Proof.
  induction schedule as [|st rest IH]; cbn [relay].
  - apply preserves_raise, keeps_refl.
  - apply keeps_bind.
    + apply (preserves_try_except _ (keeps_trans _)).
      * apply forward_iteration_keeps_service.
      * intros e k H. inversion H. apply keeps_ret.
    + intros [|]; [exact IH|].
      intros w. destruct (dst_of (step_dir st)); reflexivity.
Qed.

(** A chunk that trips the quota: the turn of the loop accounts it and
    breaks before forwarding. *)
Lemma forward_iteration_trip (dst : Sock) (st : PumpStep) (data : string)
      (w : World) :
  step_read st = ReadData data -> data <> EmptyString ->
  0 < total_traffic_limit_bytes (stats (self w)) ->
  total_traffic_limit_bytes (stats (self w))
  <= total_traffic_bytes (stats (self w)) + len data ->
  forward_iteration dst st w
  = (Return Break,
     with_self (set_stats (add_bytes (len data) (stats (self w)))) w).
Proof.
  intros Hread Hdata Hpos Hreach. unfold forward_iteration.
  rewrite Hread, (nonempty_case data _ _ Hdata).
  rewrite (bind_returns _ _ _ _ _ (track_traffic_eq _ _)).
  assert (quota_reached (add_bytes (len data) (stats (self w))) = true) as ->
      by (apply quota_reached_iff; cbn; lia).
  reflexivity.
Qed.

End RelayLoop.

Section QuotaBreachClaim.

(** Claim C3 (the code departs from it): the initial bytes trip the
    quota and the 503 is written, but the client has gone away and
    flushing it fails (259); lines 260-265 are skipped, so the listening
    task is not cancelled: [self.server_task] still refers to it and it
    is still pending.  The sockets are closed all the same, by the
    [finally] clause (285-286), which does not stop the service. *)
Lemma quota_trip_unflushed_keeps_listener :
  let w := with_stats stats_near_quota
             (boot cfg_example (env_reset (request_for "example.com"))) in
  let w' := snd (handle_connection w) in
  total_traffic_limit_bytes (stats (self w)) = 100
  /\ total_traffic_bytes (stats (self w)) = 90
  /\ len (request_for "example.com") = 55
  /\ fst (handle_connection w) = Return tt
  /\ writer (conn w') = mkWriter [response_503] true
  /\ remote_writer (conn w') = Some (mkWriter [] true)
  /\ total_traffic_bytes (stats (self w')) = 145
  /\ server_task (self w') = Some ListenerTask
  /\ listener (out w') = Pending.
Proof. vm_compute. repeat split; reflexivity. Qed.

(** The two quota-breach paths and their severity, whatever the flush
    of the 503 does.  When the size of the initial bytes, added to the
    traffic counters, trips a positive quota, the handler writes the
    503, both sockets end up closed with nothing forwarded upstream,
    and, provided the 503 is flushed, the handler cancels the listening
    task ([self.server_task] is cancelled and forgotten); when the flush
    raises, lines 260-265 are skipped and the listening task stays as
    it was.  When a chunk
    trips the quota inside a forwarding loop, the loop accounts the
    chunk, stops without forwarding it and closes its destination; the
    listening task is left alone, as it is by every run of a forwarding
    loop.  The first part is stated for a request of 7-bit bytes that
    reaches the accounting step (whitelisted host, endpoint obtained and
    dialled) while the listener is running. *)
Theorem quota_breach_severity :
  (forall w data h ip port w1,
      quota_reached (stats (self w)) = false ->
      env_first_read (env w) = ReadData data ->
      data <> EmptyString ->
      is_7bit data = true ->
      _extract_hostname data = Some h ->
      member h (get (allowed_domains (config (self w))) []) = true ->
      get_valid_ip w = (Return (Some ip, Some port), w1) ->
      ip <> EmptyString -> port <> 0 ->
      env_dial (env w) = None ->
      server_task (self w) = Some ListenerTask ->
      listener (out w) = Pending ->
      0 < total_traffic_limit_bytes (stats (self w)) ->
      total_traffic_limit_bytes (stats (self w))
      <= total_traffic_bytes (stats (self w)) + len data ->
      exists r w',
        handle_connection w = (r, w')
        /\ writer (conn w')
           = mkWriter (written (writer (conn w)) ++ [response_503]) true
        /\ remote_writer (conn w') = Some (mkWriter [] true)
        /\ total_traffic_bytes (stats (self w'))
           = total_traffic_bytes (stats (self w)) + len data
        /\ match env_client_drain (env w) with
           | None =>
               r = Return tt
               /\ server_task (self w') = None
               /\ listener (out w') = CancelRequested
           | Some e =>
               r = (if is_Exception e then Return tt else Raise e)
               /\ server_task (self w') = Some ListenerTask
               /\ listener (out w') = Pending
           end)
  /\ (forall dst st rest data w,
         step_read st = ReadData data ->
         data <> EmptyString ->
         0 < total_traffic_limit_bytes (stats (self w)) ->
         total_traffic_limit_bytes (stats (self w))
         <= total_traffic_bytes (stats (self w)) + len data ->
         exists w',
           _forward_and_track dst (st :: rest) w = (Return tt, w')
           /\ stats (self w') = add_bytes (len data) (stats (self w))
           /\ writer_of dst (conn w')
              = option_map close_writer (writer_of dst (conn w))
           /\ server_task (self w') = server_task (self w)
           /\ listener (out w') = listener (out w))
  /\ (forall dst steps w,
         let w' := snd (_forward_and_track dst steps w) in
         server_task (self w') = server_task (self w)
         /\ listener (out w') = listener (out w)).
Proof.
  split; [|split].
  - intros w data h ip port w1 Hquota Hread Hdata _ Hh Hm Hpool Hip Hport
           Hdial Htask Hlisten Hpos Hreach.
    rewrite (handle_connection_unfold w Hquota).
    unfold try_finally at 1, try_except at 1.
    rewrite (handle_body_accepts w data Hread Hdata h Hh Hm).
    pose proof (get_valid_ip_keeps_view w) as Hview.
    rewrite Hpool in Hview. cbn [snd] in Hview.
    apply relay_view_fields in Hview.
    destruct Hview as (He & Hc & _ & Ht & Hl & Htot & Hlim).
    destruct (serve_quota_trip w1 data) as
        (r & w2 & Hserve & Hw & (rw & Hr & Hrw) & Hcounted & Htot2 & Hcase);
      try congruence.
    rewrite (bind_returns _ _ _ _ _ Hpool).
    assert (after_pool data (Some ip, Some port) w1 = serve data w1) as ->.
    { unfold after_pool. cbn.
      destruct ip; [congruence|]. cbn.
      apply Z.eqb_neq in Hport. now rewrite Hport. }
    rewrite Hserve. rewrite He in Hcase.
    assert (forall r0 : outcome unit,
               exists w3,
                 match handle_finally w2 with
                 | (Return _, w'') => (r0, w'')
                 | (Raise e, w'') => (Raise e, w'')
                 end = (r0, w3)
                 /\ writer (conn w3)
                    = mkWriter (written (writer (conn w)) ++ [response_503]) true
                 /\ remote_writer (conn w3) = Some (mkWriter [] true)
                 /\ self w3 = self w2 /\ listener (out w3) = listener (out w2))
      as Hfin.
    { intros r0. unfold handle_finally, bind, close_if_open, modify, _save_stats.
      cbn. eexists. split; [reflexivity|]. cbn.
      rewrite Hr. unfold close_writer. cbn. rewrite Hw, Hrw, Hc.
      repeat split. }
    destruct (env_client_drain (env w)) as [e|].
    + destruct Hcase as (-> & Ht2 & Hl2). unfold handle_except.
      destruct (is_Exception e).
      * unfold bind at 1, gets. cbn [fst snd]. rewrite Hcounted. cbn [negb when ret].
        destruct (Hfin (Return tt)) as (w3 & Hrun & Hw3 & Hr3 & Hs3 & Hl3).
        rewrite Hrun. exists (Return tt), w3. split; [reflexivity|].
        rewrite Hs3, Hl3, Htot2, Htot.
        repeat split; try assumption; reflexivity.
      * destruct (Hfin (Raise e)) as (w3 & Hrun & Hw3 & Hr3 & Hs3 & Hl3).
        rewrite Hrun. exists (Raise e), w3. split; [reflexivity|].
        rewrite Hs3, Hl3, Htot2, Htot.
        repeat split; try assumption; reflexivity.
    + destruct Hcase as (-> & Ht2 & Hl2).
      destruct (Hfin (Return tt)) as (w3 & Hrun & Hw3 & Hr3 & Hs3 & Hl3).
      rewrite Hrun. exists (Return tt), w3. split; [reflexivity|].
      rewrite Hs3, Hl3, Htot2, Htot.
      repeat split; try assumption; reflexivity.
  - intros dst st rest data w Hread Hdata Hpos Hreach.
    unfold _forward_and_track, try_finally, try_except.
    cbn [forward_loop].
    rewrite (bind_returns _ _ _ _ _
               (forward_iteration_trip dst st data w Hread Hdata Hpos Hreach)).
    eexists. split; [reflexivity|].
    destruct dst; cbn; repeat split.
  - intros dst steps w w'.
    pose proof (forward_and_track_keeps_service dst steps w) as H.
    unfold keeps, service_view in H. fold w' in H.
    inversion H. now split.
Qed.

Lemma quota_breach_severity_witness :
  (exists w',
      handle_connection world_near_quota = (Return tt, w')
      /\ writer (conn w') = mkWriter [response_503] true
      /\ remote_writer (conn w') = Some (mkWriter [] true)
      /\ total_traffic_bytes (stats (self w')) = 90 + 55
      /\ server_task (self w') = None
      /\ listener (out w') = CancelRequested)
  /\ (exists w',
         _forward_and_track Remote [chunk ClientToRemote "0123456789"]
                            world_relaying
         = (Return tt, w')
         /\ stats (self w') = add_bytes 10 stats_near_quota
         /\ writer_of Remote (conn w') = Some (mkWriter [] true)
         /\ server_task (self w') = Some ListenerTask
         /\ listener (out w') = Pending).
Proof.
  split.
  - destruct (proj1 quota_breach_severity world_near_quota
                    (request_for "example.com") "example.com" "1.2.3.4" 8080
                    (snd (get_valid_ip world_near_quota))
                    eq_refl eq_refl ltac:(discriminate) eq_refl
                    eq_refl eq_refl
                    ltac:(vm_compute; reflexivity)
                    ltac:(discriminate) ltac:(discriminate)
                    eq_refl eq_refl eq_refl
                    ltac:(vm_compute; reflexivity)
                    ltac:(vm_compute; discriminate))
      as (r & w' & Hrun & Hw & Hr & Htot & -> & Ht & Hl).
    exists w'. repeat split; assumption.
  - refine (proj1 (proj2 quota_breach_severity) Remote
                  (chunk ClientToRemote "0123456789") []
                  "0123456789" world_relaying _ _ _ _);
      try reflexivity; try discriminate; vm_compute; try reflexivity;
      discriminate.
Defined.

(** What the generic [except] clause adds to a rejection: when the
    client is gone and flushing the 403 raises, one failed request is
    recorded, still without any call of the pool. *)
Lemma rejection_interrupted (w : World) (data : string) (e : exn) :
  quota_reached (stats (self w)) = false ->
  env_first_read (env w) = ReadData data ->
  data <> EmptyString ->
  get (allowed_domains (config (self w))) [] = []
  \/ _extract_hostname data = None
  \/ (exists h, _extract_hostname data = Some h
                /\ member h (get (allowed_domains (config (self w))) []) = false) ->
  env_client_drain (env w) = Some e -> is_Exception e = true ->
  is_counted (conn w) = false ->
  exists w',
    handle_connection w = (Return tt, w')
    /\ today_requests_failed (stats (self w'))
       = (if (today_date (stats (self w))
              =? env_today (env w) (n_today (out w)))%string
          then today_requests_failed (stats (self w)) else 0) + 1
    /\ n_api (out w') = n_api (out w)
    /\ n_probe (out w') = n_probe (out w).
Proof.
  intros Hquota Hread Hdata Hrej Hdrain Hexc Hcounted.
  rewrite (handle_connection_unfold w Hquota).
  unfold try_finally, try_except.
  rewrite (handle_body_rejects w data Hread Hdata Hrej).
  unfold respond, bind at 1 2, write, modify, gets. cbn.
  rewrite Hdrain. cbn. unfold handle_except. rewrite Hexc.
  unfold bind at 1, gets. cbn. rewrite Hcounted. cbn.
  unfold _increment_request_counter.
  match goal with
  | |- context [bind _check_and_reset_daily_stats ?k ?W] =>
      destruct (string_dec (today_date (stats (self W)))
                           (env_today (env W) (n_today (out W)))) as [E|E];
      [rewrite (bind_returns _ _ _ _ _ (check_same_day W E))
      |rewrite (bind_returns _ _ _ _ _ (check_rolls W E))]
  end; cbn in E.
  - apply String.eqb_eq in E. rewrite E.
    eexists. split; [reflexivity|]. cbn. repeat split.
  - apply String.eqb_neq in E. rewrite E.
    eexists. split; [reflexivity|]. cbn. repeat split.
Qed.

End QuotaBreachClaim.

(** ** The float model on known values *)

Section FloatChecks.

(** The rounded quotient is a nearest integer. *)
Lemma round_half_even_nearest (n d : Z) :
  0 <= n -> 0 < d ->
  Z.abs (2 * n - 2 * d * round_half_even n d) <= d.
Proof.
  intros Hn Hd. unfold round_half_even.
  pose proof (Z.div_mod n d ltac:(lia)) as Hdiv.
  pose proof (Z.mod_pos_bound n d Hd) as Hmod.
  destruct (2 * (n mod d) <? d) eqn:E1.
  - apply Z.ltb_lt in E1. nia.
  - apply Z.ltb_ge in E1.
    destruct (d <? 2 * (n mod d)) eqn:E2.
    + apply Z.ltb_lt in E2. nia.
    + apply Z.ltb_ge in E2. destruct (Z.even (n / d)); nia.
Qed.

(** [float("0.1")] is 0x1.999999999999ap-4; [int(1e23)] is the integer
    below 10^23 that every Python prints; the largest double is reached
    by 1.7976931348623158e308 and passed by 1.7976931348623159e308. *)
Example float_known_values :
  of_decimal "0" "1" = Finite 7205759403792794 (-56)
  /\ _parse_traffic_string "100000000000000000000000"
     = Return (Some 99999999999999991611392)
  /\ _parse_traffic_string ("17976931348623158" ++ repeat_char "0" 292)
     = Return (Some (2 ^ 1024 - 2 ^ 971))
  /\ _parse_traffic_string ("17976931348623159" ++ repeat_char "0" 292)
     = Raise OverflowError
  /\ _parse_traffic_string "9007199254740993" = Return (Some 9007199254740992)
  /\ _parse_traffic_string "9007199254740995" = Return (Some 9007199254740996).
Proof. repeat split; vm_compute; reflexivity. Qed.

End FloatChecks.

(** ** The handler on a whole connection *)

Section EndToEnd.

(** A tunnel to a whitelisted host, from the first bytes to the close of
    both sockets: one endpoint leased, one request counted as succeeded,
    every byte accounted once. *)
Example tunnel_end_to_end :
  let w := snd (handle_connection (boot cfg_example env_tunnel)) in
  fst (handle_connection (boot cfg_example env_tunnel)) = Return tt
  /\ writer (conn w) = mkWriter ["xyz"] true
  /\ remote_writer (conn w)
     = Some (mkWriter [connect_to "example.com"; "abc"] true)
  /\ today_requests_succeeded (stats (self w)) = 1
  /\ today_requests_failed (stats (self w)) = 0
  /\ total_ips_used (stats (self w)) = 1
  /\ total_traffic_bytes (stats (self w))
     = len (connect_to "example.com") + 3 + 3
  /\ (current_ip (self w), current_port (self w)) = (Some "1.2.3.4", Some 8080)
  /\ server_task (self w) = Some ListenerTask.
Proof. vm_compute. repeat split; reflexivity. Qed.

(** With the quota already reached a new connection gets the 503 at once:
    nothing is read, the whitelist and the pool are not consulted. *)
Example quota_already_reached :
  let w0 := with_stats (set_limit 100 (set_used 100 default_stats))
                       (boot cfg_example
                             (env_request (request_for "example.com"))) in
  let w := snd (handle_connection w0) in
  fst (handle_connection w0) = Return tt
  /\ writer (conn w) = mkWriter [response_503] true
  /\ self w = self w0
  /\ pool_view w = pool_view w0.
Proof. vm_compute. repeat split; reflexivity. Qed.

End EndToEnd.

(* ================================================================== *)
(** * Part III: further properties of the code *)
(* ================================================================== *)

Import Observe.

(** ** Every way out of the handler *)

Section HandlerExits.

Lemma handle_finally_eq (w : World) :
  handle_finally w
  = (Return tt,
     with_out (fun o => set_disk (dumped w (stats (self w)) :: disk o) o)
       (with_conn (fun c => set_writer (close_writer (writer c)) c)
          (with_conn
             (fun c => set_remote_writer
                         (option_map close_writer (remote_writer c)) c)
             w))).
Proof. reflexivity. Qed.

(** Past the quota pre-check, however the handler ends (return, error,
    cancellation), the client socket is closed, the upstream socket is
    closed if one was opened, and the last thing done to the stats file
    is an attempt to write the stats as they are in memory: the file
    holds them unless that write fails, which the code only logs
    (146-147). *)
Theorem handler_always_cleans_up (w : World) :
  quota_reached (stats (self w)) = false ->
  let w' := snd (handle_connection w) in
  is_closing (writer (conn w')) = true
  /\ (forall rw, remote_writer (conn w') = Some rw -> is_closing rw = true)
  /\ persisted w'.
Proof.
  intros Hquota. rewrite (handle_connection_unfold w Hquota).
  unfold try_finally.
  destruct (try_except handle_body handle_except w) as [r w1].
  rewrite handle_finally_eq. cbn.
  split; [reflexivity|]. split; [|exists (disk (out w1)); reflexivity].
  intros rw H. destruct (remote_writer (conn w1)); inversion H. reflexivity.
Qed.

Lemma handler_always_cleans_up_witness :
  let w' := snd (handle_connection (boot cfg_example env_tunnel)) in
  is_closing (writer (conn w')) = true
  /\ (forall rw, remote_writer (conn w') = Some rw -> is_closing rw = true)
  /\ persisted w'.
Proof.
  apply (handler_always_cleans_up (boot cfg_example env_tunnel)). reflexivity.
Defined.



End HandlerExits.

(** ** One outcome for each connection *)

Section Outcomes.

Lemma quiet_refl (w : World) : quiet w w.
Proof. intros H. now split. Qed.

Lemma quiet_trans (a b c : World) : quiet a b -> quiet b c -> quiet a c.
Proof.
  intros Hab Hbc Ha. destruct (Hab Ha) as [Hb Vb].
  destruct (Hbc Hb) as [Hc Vc]. split; [exact Hc|congruence].
Qed.

(** A step that changes neither the calendar, nor the recorded date, nor
    what [outcome_view] shows. *)
Lemma quiet_same (w w' : World) :
  env w' = env w ->
  today_date (stats (self w')) = today_date (stats (self w)) ->
  outcome_view w' = outcome_view w ->
  quiet w w'.
Proof.
  intros He Hd Hv Hday. split; [|exact Hv].
  intros k. rewrite He, Hd. apply Hday.
Qed.

Lemma check_quiet : preserves quiet _check_and_reset_daily_stats.
Proof.
  intros w Hday.
  rewrite (check_same_day w) by (symmetry; apply Hday).
  split; [exact Hday|reflexivity].
Qed.

Lemma ip_counter_quiet : preserves quiet _increment_ip_usage_counter.
Proof.
  intros w Hday. unfold _increment_ip_usage_counter.
  rewrite (bind_returns _ _ _ _ _
             (check_same_day w (eq_sym (Hday (n_today (out w)))))).
  split; [exact Hday|reflexivity].
Qed.

Ltac quiet_walk_using known :=
  repeat first
    [ apply known
    | assumption
    | apply (preserves_ret _ quiet_refl)
    | apply (preserves_gets _ quiet_refl)
    | apply (preserves_bind _ quiet_trans); [|intros]
    | solve [apply preserves_modify; intros;
             apply quiet_same; reflexivity]
    | solve [intros ?; apply quiet_same; reflexivity]
    | match goal with
      | |- preserves _ (if ?b then _ else _) => destruct b
      | |- preserves _ (match ?x with _ => _ end) => destruct x
      end ].

Lemma get_new_ip_quiet : preserves quiet get_new_ip.
Proof. unfold get_new_ip. quiet_walk_using ip_counter_quiet. Qed.

Lemma acquire_quiet (attempts : nat) : preserves quiet (acquire attempts).
Proof.
  induction attempts as [|k IH]; cbn [acquire];
    quiet_walk_using get_new_ip_quiet.
Qed.

Lemma acquire_or_give_up_quiet : preserves quiet acquire_or_give_up.
Proof.
  unfold acquire_or_give_up. quiet_walk_using acquire_quiet.
Qed.

(** The pool never touches the request counters nor the handler's
    locals. *)
Lemma get_valid_ip_quiet : preserves quiet get_valid_ip.
Proof.
  unfold get_valid_ip. quiet_walk_using acquire_or_give_up_quiet.
Qed.

(** A request counter on an unchanged day. *)
Lemma request_counter_same_day (success : bool) (w : World) :
  same_day w ->
  let s := count_request success (stats (self w)) in
  _increment_request_counter success w
  = (Return tt,
     ledger_touch s (dumped w s :: disk (out w)) (S (n_today (out w))) w).
Proof.
  intros Hday. unfold _increment_request_counter.
  rewrite (bind_returns _ _ _ _ _
             (check_same_day w (eq_sym (Hday (n_today (out w)))))).
  reflexivity.
Qed.

Lemma track_keeps_outcome (n : Z) :
  preserves (keeps outcome_view) (track_traffic n).
Proof. intros w. reflexivity. Qed.

Lemma forward_iteration_keeps_outcome (dst : Sock) (st : PumpStep) :
  preserves (keeps outcome_view) (forward_iteration dst st).
Proof.
  pose proof track_keeps_outcome as Ht.
  unfold forward_iteration, drain.
  destruct (step_read st) as [[|c r]|e].
  - apply keeps_ret.
  - apply keeps_bind; [apply Ht|]. intros [|]; [apply keeps_ret|].
    apply keeps_bind.
    + intros w. unfold keeps, outcome_view. destruct dst; cbn;
        [reflexivity|]. destruct (remote_writer (conn w)); reflexivity.
    + intros _. destruct (step_drain st).
      * apply keeps_bind; [apply preserves_raise, keeps_refl|].
        intros; apply keeps_ret.
      * apply keeps_bind; [apply keeps_ret|]. intros; apply keeps_ret.
  - apply preserves_raise, keeps_refl.
Qed.

Lemma close_keeps_outcome (k : Sock) :
  preserves (keeps outcome_view) (close_if_open k).
Proof.
  intros w. unfold keeps, outcome_view. destruct k; cbn; [reflexivity|].
  destruct (remote_writer (conn w)); reflexivity.
Qed.

Lemma relay_keeps_outcome (schedule : list PumpStep) :
  preserves (keeps outcome_view) (relay schedule).
Proof.
  induction schedule as [|st rest IH]; cbn [relay].
  - apply preserves_raise, keeps_refl.
  - apply keeps_bind.
    + apply (preserves_try_except _ (keeps_trans _)).
      * apply forward_iteration_keeps_outcome.
      * intros e k H. inversion H. apply keeps_ret.
    + intros [|]; [exact IH|apply close_keeps_outcome].
Qed.

Lemma respond_keeps_outcome (response : string) :
  preserves (keeps outcome_view) (respond response).
Proof. intros w. rewrite respond_eq. reflexivity. Qed.

(** Lines 248-276: once the request is counted, nothing that follows
    counts again. *)
Lemma serve_rest_keeps_outcome (initial_data : string) :
  preserves (keeps outcome_view)
    (tripped <- track_traffic (len initial_data) ;;
     if tripped then
       respond response_503 ;;
       close_if_open Remote ;;
       close_if_open Client ;;
       cancel_service
     else
       write Remote initial_data ;;
       failure <- gets (fun w => env_remote_drain (env w)) ;;
       drain failure ;;
       schedule <- gets (fun w => env_schedule (env w)) ;;
       relay schedule)%run.
Proof.
  apply keeps_bind; [apply track_keeps_outcome|]. intros [|].
  - apply keeps_bind; [apply respond_keeps_outcome|]. intros _.
    apply keeps_bind; [apply close_keeps_outcome|]. intros _.
    apply keeps_bind; [apply close_keeps_outcome|]. intros _.
    unfold cancel_service. keep_walk.
  - apply keeps_bind.
    + intros w. unfold keeps, outcome_view. cbn.
      destruct (remote_writer (conn w)); reflexivity.
    + intros _. apply keeps_bind; [apply keeps_gets|]. intros failure.
      apply keeps_bind.
      * destruct failure; [apply preserves_raise, keeps_refl|apply keeps_ret].
      * intros _. apply keeps_bind; [apply keeps_gets|].
        intros schedule. apply relay_keeps_outcome.
Qed.

Lemma outcome_view_fields (w w' : World) :
  outcome_view w' = outcome_view w ->
  env w' = env w
  /\ outcomes w' = outcomes w
  /\ is_counted (conn w') = is_counted (conn w)
  /\ (remote_writer (conn w) = None -> remote_writer (conn w') = None)
  /\ (remote_writer (conn w) <> None -> remote_writer (conn w') <> None).
Proof.
  unfold outcome_view. intros H.
  assert (env w' = env w) as He by congruence.
  assert (outcomes w' = outcomes w) as Ho by congruence.
  assert (is_counted (conn w') = is_counted (conn w)) as Hc by congruence.
  assert (match remote_writer (conn w') with Some _ => true | None => false end
          = match remote_writer (conn w) with Some _ => true | None => false end)
    as Hr by congruence.
  repeat split; try assumption.
  - intros Hn. rewrite Hn in Hr. now destruct (remote_writer (conn w')).
  - intros Hn. destruct (remote_writer (conn w)); [|congruence].
    now destruct (remote_writer (conn w')).
Qed.

Lemma counted_once_start (w w1 : World) :
  is_counted (conn w) = false -> remote_writer (conn w) = None ->
  outcome_view w1 = outcome_view w -> counted_once w w1.
Proof.
  intros Hc Hr Hv. apply outcome_view_fields in Hv.
  destruct Hv as (_ & Ho & Hc1 & Hr1 & _).
  unfold counted_once. destruct (outcomes w) as [s f].
  left. repeat split; [congruence|exact Ho|auto].
Qed.

Lemma outcome_view_same_day (w w' : World) :
  outcome_view w' = outcome_view w -> same_day w -> same_day w'.
Proof.
  unfold outcome_view. intros H Hday k.
  assert (env w' = env w) as -> by congruence.
  assert (today_date (stats (self w')) = today_date (stats (self w)))
    as -> by congruence.
  apply Hday.
Qed.

(** Lines 237-238 and 245-246: the request is counted, the flag is set,
    and what follows does not count. *)
Lemma counted_then (success : bool) (rest : M unit) (w : World) :
  same_day w -> preserves (keeps outcome_view) rest ->
  let w' := snd ((_increment_request_counter success ;;
                  mark_counted ;; rest)%run w) in
  same_day w'
  /\ is_counted (conn w') = true
  /\ outcomes w'
     = (if success
        then (fst (outcomes w) + 1, snd (outcomes w))
        else (fst (outcomes w), snd (outcomes w) + 1))
  /\ (remote_writer (conn w) = None -> remote_writer (conn w') = None)
  /\ (remote_writer (conn w) <> None -> remote_writer (conn w') <> None).
Proof.
  intros Hday Hrest.
  rewrite (bind_returns _ _ _ _ _ (request_counter_same_day success w Hday)).
  unfold mark_counted.
  match goal with
  | |- context [bind (modify ?f) ?k ?W] =>
      rewrite (bind_returns _ _ W (f W) tt) by reflexivity
  end.
  match goal with
  | |- context [rest ?W] => set (w1 := W)
  end.
  pose proof (Hrest w1) as Hk. unfold keeps in Hk.
  cbv zeta.
  pose proof (outcome_view_fields _ _ Hk) as (_ & Ho & Hc & Hn & Hs).
  assert (same_day w1) as Hday1.
  { intros k. subst w1. destruct success; apply Hday. }
  split; [exact (outcome_view_same_day _ _ Hk Hday1)|].
  split; [rewrite Hc; reflexivity|].
  split; [rewrite Ho; subst w1; destruct success; reflexivity|].
  split; [exact Hn|exact Hs].
Qed.

Lemma handle_body_no_data (w : World) :
  handle_body w
  = match env_first_read (env w) with
    | ReadRaises e => (Raise e, w)
    | ReadData EmptyString => (Return tt, w)
    | ReadData _ => handle_body w
    end.
Proof.
  destruct (env_first_read (env w)) as [[|c r]|e] eqn:Hread;
    try reflexivity;
    unfold handle_body, read_initial, bind, gets; cbv beta;
    rewrite Hread; reflexivity.
Qed.

(** The whitelist test has two outcomes. *)
Lemma handle_body_cases (w : World) (data : string) :
  env_first_read (env w) = ReadData data -> data <> EmptyString ->
  handle_body w = respond response_403 w
  \/ handle_body w
     = (endpoint <- get_valid_ip ;; after_pool data endpoint)%run w.
Proof.
  intros Hread Hdata.
  destruct (get (allowed_domains (config (self w))) []) as [|a l] eqn:Ea.
  { left. apply (handle_body_rejects w data Hread Hdata). now left. }
  destruct (_extract_hostname data) as [h|] eqn:Eh.
  2:{ left. apply (handle_body_rejects w data Hread Hdata). right. now left. }
  destruct (member h (a :: l)) eqn:Em.
  - right. apply (handle_body_accepts w data Hread Hdata h Eh).
    now rewrite Ea.
  - left. apply (handle_body_rejects w data Hread Hdata). right. right.
    exists h. rewrite Ea. now split.
Qed.

(** The [try] block of the handler counts the request at most once, as
    a success exactly when the upstream socket was opened. *)
Lemma handle_body_outcome (w : World) :
  same_day w -> is_counted (conn w) = false ->
  remote_writer (conn w) = None ->
  same_day (snd (handle_body w)) /\ counted_once w (snd (handle_body w)).
Proof.
  intros Hday Hc Hr.
  set (P := fun x : outcome unit * World =>
              same_day (snd x) /\ counted_once w (snd x)).
  change (P (handle_body w)).
  assert (forall r, P (r, w)) as Hstart
      by (intros r; split; [exact Hday|now apply counted_once_start]).
  rewrite handle_body_no_data.
  destruct (env_first_read (env w)) as [data|e] eqn:Hread; [|apply Hstart].
  destruct data as [|c0 r0]; [apply Hstart|].
  set (data := String c0 r0) in *.
  destruct (handle_body_cases w data Hread ltac:(discriminate)) as [-> | ->].
  { rewrite respond_eq.
    split; [exact Hday|now apply counted_once_start]. }
  unfold bind at 1.
  pose proof (get_valid_ip_quiet w Hday) as [Hday0 Hv0].
  destruct (get_valid_ip w) as [[[remote_ip remote_port]|e] w0];
    cbn [snd] in *;
    [|split; [exact Hday0|now apply counted_once_start]].
  pose proof (outcome_view_fields _ _ Hv0) as (He0 & Ho0 & Hc0 & Hr0 & _).
  rewrite Hc in Hc0. specialize (Hr0 Hr).
  unfold after_pool.
  destruct (negb (truthy remote_ip) || negb (truthy_num remote_port)).
  - pose proof (counted_then false (respond response_502) w0 Hday0
                  (respond_keeps_outcome response_502))
      as (Hd & Hcc & Hoo & Hn & _).
    split; [exact Hd|].
    unfold counted_once. rewrite <- Ho0.
    destruct (outcomes w0) as [s f]. right. right.
    repeat split; [exact Hcc|exact Hoo|exact (Hn Hr0)].
  - unfold serve. unfold bind at 1, open_connection, bind at 1, gets.
    destruct (env_dial (env w0));
      [split; [exact Hday0|now apply counted_once_start]|].
    cbn [modify fst snd].
    set (w2 := with_conn (set_remote_writer (Some fresh_writer)) w0).
    assert (same_day w2) as Hday2 by exact Hday0.
    pose proof (counted_then true _ w2 Hday2 (serve_rest_keeps_outcome data))
      as (Hd & Hcc & Hoo & _ & Hs).
    split; [exact Hd|].
    unfold counted_once. rewrite <- Ho0.
    change (outcomes w2) with (outcomes w0) in Hoo.
    destruct (outcomes w0) as [s f]. right. left.
    repeat split; [exact Hcc|exact Hoo|apply Hs; discriminate].
Qed.

(** The [except] clause records a failure only for a request not yet
    counted. *)
Lemma handle_except_outcome (w w1 : World) (e : exn) (h : M unit) :
  same_day w1 -> counted_once w w1 -> handle_except e = Some h ->
  let '(s, f) := outcomes w in
  let w2 := snd (h w1) in
  (remote_writer (conn w2) <> None /\ outcomes w2 = (s + 1, f))
  \/ (remote_writer (conn w2) = None /\ outcomes w2 = (s, f + 1)).
Proof.
  intros Hday Hone He. unfold handle_except in He.
  destruct (is_Exception e); inversion He; subst h; clear He.
  unfold counted_once in Hone. destruct (outcomes w) as [s f].
  rewrite (bind_returns _ _ w1 w1 (is_counted (conn w1))) by reflexivity.
  destruct Hone as [(Hc & Ho & Hr) | [(Hc & Ho & Hr) | (Hc & Ho & Hr)]];
    rewrite Hc; cbn [negb when ret snd].
  - right. rewrite (request_counter_same_day false w1 Hday). cbn [snd].
    split; [exact Hr|].
    unfold outcomes in *. cbn. inversion Ho. reflexivity.
  - left. now split.
  - right. now split.
Qed.

(** One connection moves the request counters of the day by at most
    one: a success is recorded exactly when the upstream connection was
    opened, and otherwise nothing or one failure. *)
Theorem one_outcome_per_connection (w : World) :
  quota_reached (stats (self w)) = false ->
  same_day w ->
  is_counted (conn w) = false ->
  remote_writer (conn w) = None ->
  let w' := snd (handle_connection w) in
  let '(s, f) := outcomes w in
  (remote_writer (conn w') <> None /\ outcomes w' = (s + 1, f))
  \/ (remote_writer (conn w') = None
      /\ (outcomes w' = (s, f) \/ outcomes w' = (s, f + 1))).
Proof.
  intros Hquota Hday Hc Hr.
  rewrite (handle_connection_unfold w Hquota).
  pose proof (handle_body_outcome w Hday Hc Hr) as [Hday1 Hone].
  assert (forall w2,
             outcomes (snd (handle_finally w2)) = outcomes w2
             /\ (remote_writer (conn (snd (handle_finally w2))) = None
                 <-> remote_writer (conn w2) = None)) as Hfin.
  { intros w2. rewrite handle_finally_eq. cbn [snd]. split; [reflexivity|].
    cbn. destruct (remote_writer (conn w2)); cbn; split; congruence. }
  unfold try_finally, try_except.
  destruct (handle_body w) as [[[]|e] w1]; cbn [snd] in Hday1, Hone.
  - destruct (Hfin w1) as [Ho Hn].
    destruct (handle_finally w1) as [[[]|e'] w2]; cbn [snd] in *;
      unfold counted_once in Hone; destruct (outcomes w) as [s f];
      rewrite Ho;
      (destruct Hone as [(_ & ? & ?) | [(_ & ? & ?) | (_ & ? & ?)]];
       [right; split; [now apply Hn|now left]
       |left; split; [intros F; apply Hn in F; contradiction|assumption]
       |right; split; [now apply Hn|now right]]).
  - destruct (handle_except e) as [h|] eqn:He.
    + pose proof (handle_except_outcome w w1 e h Hday1 Hone He) as Hx.
      destruct (outcomes w) as [s f]. cbv zeta in Hx.
      destruct (h w1) as [r w2]. cbn [snd] in Hx.
      destruct (Hfin w2) as [Ho Hn].
      destruct (handle_finally w2) as [[[]|e'] w3]; cbn [snd] in *;
        rewrite Ho;
        (destruct Hx as [(? & ?) | (? & ?)];
         [left; split; [intros F; apply Hn in F; contradiction|assumption]
         |right; split; [now apply Hn|now right]]).
    + destruct (Hfin w1) as [Ho Hn].
      destruct (handle_finally w1) as [[[]|e'] w2]; cbn [snd] in *;
        unfold counted_once in Hone; destruct (outcomes w) as [s f];
        rewrite Ho;
        (destruct Hone as [(_ & ? & ?) | [(_ & ? & ?) | (_ & ? & ?)]];
         [right; split; [now apply Hn|now left]
         |left; split; [intros F; apply Hn in F; contradiction|assumption]
         |right; split; [now apply Hn|now right]]).
Qed.

Lemma one_outcome_per_connection_witness :
  let w := boot cfg_example env_tunnel in
  let w' := snd (handle_connection w) in
  (remote_writer (conn w') <> None /\ outcomes w' = (0 + 1, 0))
  \/ (remote_writer (conn w') = None
      /\ (outcomes w' = (0, 0) \/ outcomes w' = (0, 0 + 1))).
Proof.
  apply (one_outcome_per_connection (boot cfg_example env_tunnel));
    try reflexivity.
  intros k. reflexivity.
Defined.

End Outcomes.

Section FailurePaths.










End FailurePaths.

Section Conservation.

Lemma conserved_nothing (dst : Sock) (steps : list PumpStep) (w : World) :
  conserved dst steps 0 w w.
Proof.
  unfold conserved, accounted. cbn. rewrite app_nil_r.
  split; [reflexivity|]. split; [lia|]. left. lia.
Qed.

Lemma conserved_step (dst : Sock) (st : PumpStep) (rest : list PumpStep)
      (data : string) (n : nat) (w w2 w' : World) :
  step_read st = ReadData data ->
  written_to dst w2 = (written_to dst w ++ [data])%list ->
  today_traffic_bytes (stats (self w2))
  = today_traffic_bytes (stats (self w)) + len data ->
  total_traffic_bytes (stats (self w2))
  = total_traffic_bytes (stats (self w)) + len data ->
  conserved dst rest n w2 w' ->
  conserved dst (st :: rest) (S n) w w'.
Proof.
  unfold conserved, accounted. intros Hread Hw Htoday Htotal (Hs & Ht & Hc).
  assert (chunk_of st = data) as Hch by (unfold chunk_of; now rewrite Hread).
  assert (forall a l, total_len (a :: l) = len a + total_len l) as Hcons
      by reflexivity.
  cbn [firstn map nth_error]. rewrite Hch, Hcons.
  split; [rewrite Hs, Hw, <- app_assoc; reflexivity|].
  split; [lia|].
  destruct Hc as [Hc | (st' & Hn & Hc & Hq)].
  - left. lia.
  - right. exists st'. repeat split; [exact Hn|lia|exact Hq].
Qed.

Lemma conserved_trip (dst : Sock) (st : PumpStep) (rest : list PumpStep)
      (data : string) (w : World) :
  step_read st = ReadData data ->
  quota_reached (add_bytes (len data) (stats (self w))) = true ->
  conserved dst (st :: rest) 0 w
    (with_self (set_stats (add_bytes (len data) (stats (self w)))) w).
Proof.
  intros Hread Hq.
  assert (chunk_of st = data) as Hch by (unfold chunk_of; now rewrite Hread).
  unfold conserved, accounted, written_to.
  cbn [firstn map nth_error]. rewrite app_nil_r.
  split; [reflexivity|].
  remember (len data) as k eqn:Hk.
  split; [cbn; lia|].
  right. exists st. rewrite Hch, <- Hk.
  split; [reflexivity|]. split; [cbn; lia|exact Hq].
Qed.

Lemma forward_loop_conserves (dst : Sock) (steps : list PumpStep) :
  forall w,
    writer_of dst (conn w) <> None ->
    exists n, conserved dst steps n w (snd (forward_loop dst steps w)).
Proof.
  induction steps as [|st rest IH]; intros w Hdst.
  { exists 0%nat. apply conserved_nothing. }
  cbn [forward_loop]. unfold bind at 1, forward_iteration.
  destruct (step_read st) as [[|c r]|e] eqn:Hread;
    try (exists 0%nat; apply conserved_nothing).
  set (data := String c r) in *.
  rewrite (bind_returns _ _ _ _ _ (track_traffic_eq (len data) w)).
  set (w1 := with_self (set_stats (add_bytes (len data) (stats (self w)))) w).
  destruct (quota_reached (add_bytes (len data) (stats (self w)))) eqn:Hq.
  - exists 0%nat. cbn [ret snd].
    exact (conserved_trip dst st rest data w Hread Hq).
  - unfold write.
    match goal with
    | |- context [bind (modify ?f) ?k ?W] =>
        rewrite (bind_returns _ _ W (f W) tt) by reflexivity
    end.
    match goal with
    | |- context [bind (drain _) _ ?W] => set (w2 := W)
    end.
    assert (written_to dst w2 = (written_to dst w ++ [data])%list) as Hw.
    { unfold written_to, w2, w1. destruct dst; cbn; [reflexivity|].
      cbn in Hdst. destruct (remote_writer (conn w)); [reflexivity|].
      contradiction. }
    assert (writer_of dst (conn w2) <> None) as Hdst2.
    { unfold w2, w1. destruct dst; cbn; [discriminate|].
      cbn in Hdst. destruct (remote_writer (conn w)); [discriminate|].
      contradiction. }
    assert (today_traffic_bytes (stats (self w2))
            = today_traffic_bytes (stats (self w)) + len data) as Htoday
        by reflexivity.
    assert (total_traffic_bytes (stats (self w2))
            = total_traffic_bytes (stats (self w)) + len data) as Htotal
        by reflexivity.
    destruct (step_drain st) as [e|]; cbn [drain].
    + exists 1%nat. cbn [bind raise snd fst].
      apply (conserved_step dst st rest data 0 w w2 w2 Hread Hw Htoday Htotal).
      apply conserved_nothing.
    + change (exists n, conserved dst (st :: rest) n w
                          (snd (forward_loop dst rest w2))).
      destruct (IH w2 Hdst2) as [n Hn]. exists (S n).
      exact (conserved_step dst st rest data n w w2 _ Hread Hw Htoday Htotal Hn).
Qed.

(** Lines 167-195: whatever a forwarding task reads and however it
    ends, what it has written to its destination is exactly the chunks
    of a prefix of what it read, in order; every byte written has been
    accounted, in both traffic counters alike, and the only bytes
    accounted without being written are those of the one chunk that
    tripped the quota; the destination ends closed. *)
Theorem forwarding_conserves (dst : Sock) (steps : list PumpStep) (w : World) :
  writer_of dst (conn w) <> None ->
  let w' := snd (_forward_and_track dst steps w) in
  (exists n, conserved dst steps n w w')
  /\ (forall x, writer_of dst (conn w') = Some x -> is_closing x = true).
Proof.
  intros Hdst. destruct (forward_loop_conserves dst steps w Hdst) as [n Hn].
  unfold _forward_and_track, try_finally, try_except.
  destruct (forward_loop dst steps w) as [[[]|e] w1]; cbn [snd] in Hn.
  - split.
    + exists n. unfold conserved, accounted, written_to in *.
      destruct dst; cbn in *; [exact Hn|].
      destruct (remote_writer (conn w1)); exact Hn.
    + intros x. destruct dst; cbn; [intros H; inversion H; reflexivity|].
      destruct (remote_writer (conn w1)); cbn; intros H; inversion H.
      reflexivity.
  - assert (exists r, match forward_handler e with
                      | Some h => h w1
                      | None => (Raise e, w1)
                      end = (r, w1)) as [r ->]
        by (destruct e; cbn; eexists; reflexivity).
    split.
    + exists n. unfold conserved, accounted, written_to in *.
      destruct dst; cbn in *; [exact Hn|].
      destruct (remote_writer (conn w1)); exact Hn.
    + intros x. destruct dst; cbn; [intros H; inversion H; reflexivity|].
      destruct (remote_writer (conn w1)); cbn; intros H; inversion H.
      reflexivity.
Qed.

Lemma forwarding_conserves_witness :
  let steps := [chunk ClientToRemote "0123456"; chunk ClientToRemote "abcd";
                chunk ClientToRemote "never sent"] in
  let w' := snd (_forward_and_track Remote steps world_relaying) in
  (exists n, conserved Remote steps n world_relaying w')
  /\ (forall x, writer_of Remote (conn w') = Some x -> is_closing x = true).
Proof.
  intros steps.
  apply (forwarding_conserves Remote steps world_relaying). discriminate.
Defined.

End Conservation.

Section LedgerInvariants.

Variable Q : Stats -> Prop.
Variable allowed : Op -> bool.

Hypothesis Q_reset : forall d s, Q s -> Q (reset_day d s).
Hypothesis Q_request : forall b s, Q s -> Q (count_request b s).
Hypothesis Q_lease : forall s, Q s -> Q (count_ip s).
Hypothesis Q_traffic :
  forall n s, allowed (OpTraffic n) = true -> Q s -> Q (add_bytes n s).
Hypothesis Q_limit :
  forall n s, allowed (OpSetLimit n) = true -> Q s -> Q (set_limit n s).
Hypothesis Q_used :
  forall n s, allowed (OpSetUsed n) = true -> Q s -> Q (set_used n s).

Lemma check_invariant (w : World) :
  Q (stats (self w)) ->
  fst (_check_and_reset_daily_stats w) = Return tt
  /\ Q (stats (self (snd (_check_and_reset_daily_stats w)))).
Proof.
  intros H.
  destruct (string_dec (today_date (stats (self w)))
                       (env_today (env w) (n_today (out w)))) as [E|E].
  - rewrite (check_same_day w E). split; [reflexivity|exact H].
  - rewrite (check_rolls w E). split; [reflexivity|]. cbn. now apply Q_reset.
Qed.

Lemma run_op_invariant (o : Op) (w : World) :
  allowed o = true -> Q (stats (self w)) ->
  fst (run_op o w) = Return tt /\ Q (stats (self (snd (run_op o w)))).
Proof.
  intros Ha H. pose proof (check_invariant w H) as [Hr Hq].
  destruct o; cbn [run_op].
  - split; assumption.
  - unfold _increment_request_counter, bind.
    destruct (_check_and_reset_daily_stats w) as [[[]|e] w1];
      [|discriminate].
    split; [reflexivity|]. now apply Q_request.
  - unfold _increment_ip_usage_counter, bind.
    destruct (_check_and_reset_daily_stats w) as [[[]|e] w1];
      [|discriminate].
    split; [reflexivity|]. now apply Q_lease.
  - split; [reflexivity|]. now apply Q_traffic.
  - split; [reflexivity|]. now apply Q_limit.
  - split; [reflexivity|]. now apply Q_used.
Qed.

Lemma run_ops_invariant (ops : list Op) (w : World) :
  forallb allowed ops = true -> Q (stats (self w)) ->
  fst (run_ops ops w) = Return tt /\ Q (stats (self (snd (run_ops ops w)))).
Proof.
  revert w; induction ops as [|o r IH]; intros w Ha H.
  - split; [reflexivity|exact H].
  - cbn [forallb] in Ha. apply andb_prop in Ha. destruct Ha as [Ho Hrest].
    cbn [run_ops]. unfold bind.
    destruct (run_op_invariant o w Ho H) as [Hr Hq].
    destruct (run_op o w) as [[[]|e] w1]; [|discriminate].
    now apply IH.
Qed.

End LedgerInvariants.

Section LedgerProperties.

(** Lines 95-116, 149-165, 178-184: nothing that happens by itself
    while the proxy runs (day rollovers, request and lease counters,
    traffic) changes the limit or lowers the all-time totals; so a quota
    once reached stays reached until an administrator command changes
    the limit or the used traffic.  A new day does not lift it. *)
Theorem quota_is_sticky (ops : list Op) (w : World) :
  forallb organic ops = true ->
  let s := stats (self w) in
  let s' := stats (self (snd (run_ops ops w))) in
  total_traffic_limit_bytes s' = total_traffic_limit_bytes s
  /\ total_traffic_bytes s <= total_traffic_bytes s'
  /\ total_ips_used s <= total_ips_used s'
  /\ (quota_reached s = true -> quota_reached s' = true).
Proof.
  intros Hops s s'.
  assert (total_traffic_limit_bytes s' = total_traffic_limit_bytes s
          /\ total_traffic_bytes s <= total_traffic_bytes s'
          /\ total_ips_used s <= total_ips_used s') as H.
  { refine (proj2 (run_ops_invariant
                     (fun x => total_traffic_limit_bytes x
                               = total_traffic_limit_bytes s
                               /\ total_traffic_bytes s <= total_traffic_bytes x
                               /\ total_ips_used s <= total_ips_used x)
                     organic _ _ _ _ _ _ ops w Hops _)).
    - intros d x H. exact H.
    - intros [|] x H; exact H.
    - intros x (H1 & H2 & H3). cbn. repeat split; [exact H1|exact H2|lia].
    - intros n x Hn (H1 & H2 & H3). cbn in *. apply Z.leb_le in Hn.
      repeat split; [exact H1|lia|exact H3].
    - intros n x Hn. discriminate.
    - intros n x Hn. discriminate.
    - subst s. repeat split; lia. }
  destruct H as (H1 & H2 & H3). repeat split; try assumption.
  intros Hq. apply quota_reached_iff in Hq. apply quota_reached_iff.
  rewrite H1. lia.
Qed.

Lemma quota_is_sticky_witness :
  let ops := [OpTraffic 10; OpCheckDay; OpRequest true; OpLease] in
  let s := stats (self world_near_quota) in
  let s' := stats (self (snd (run_ops ops world_near_quota))) in
  total_traffic_limit_bytes s' = total_traffic_limit_bytes s
  /\ total_traffic_bytes s <= total_traffic_bytes s'
  /\ total_ips_used s <= total_ips_used s'
  /\ (quota_reached s = true -> quota_reached s' = true).
Proof.
  intros ops.
  apply (quota_is_sticky ops world_near_quota). reflexivity.
Defined.

Lemma push_history_counts (s : Stats) :
  counts_ok s -> Forall (fun n => 0 <= n) (push_history s).
Proof.
  intros (_ & _ & _ & Ht & _ & _ & Hh). unfold push_history.
  assert (Forall (fun n => 0 <= n)
                 (daily_traffic_history s ++ [today_traffic_bytes s])%list)
    as Hall by (apply Forall_app; split; [exact Hh|now constructor]).
  destruct (3 <? _)%nat; [|exact Hall].
  destruct (daily_traffic_history s ++ [today_traffic_bytes s])%list;
    [constructor|]. now inversion Hall.
Qed.

(** Lines 95-116, 149-165, 178-184, 545-568: as long as traffic sizes
    and the byte counts given to the two commands are not negative, the
    counters stay counts: none goes negative, the leases of the day
    never exceed the all-time leases, and the history holds no negative
    entry. *)
Theorem counters_stay_counts (ops : list Op) (w : World) :
  forallb sensible ops = true ->
  counts_ok (stats (self w)) ->
  fst (run_ops ops w) = Return tt
  /\ counts_ok (stats (self (snd (run_ops ops w)))).
Proof.
  intros Hops H.
  refine (run_ops_invariant counts_ok sensible _ _ _ _ _ _ ops w Hops H).
  - intros d s Hs. pose proof (push_history_counts s Hs) as Hp.
    destruct Hs as (H1 & H2 & H3 & H4 & H5 & H6 & H7).
    unfold counts_ok. cbn. repeat split; try lia; assumption.
  - intros [|] s (H1 & H2 & H3 & H4 & H5 & H6 & H7);
      unfold counts_ok; cbn; repeat split; try lia; assumption.
  - intros s (H1 & H2 & H3 & H4 & H5 & H6 & H7).
    unfold counts_ok; cbn; repeat split; try lia; assumption.
  - intros n s Hn (H1 & H2 & H3 & H4 & H5 & H6 & H7).
    cbn in Hn. apply Z.leb_le in Hn.
    unfold counts_ok; cbn; repeat split; try lia; assumption.
  - intros n s Hn (H1 & H2 & H3 & H4 & H5 & H6 & H7).
    cbn in Hn. apply Z.leb_le in Hn.
    unfold counts_ok; cbn; repeat split; try lia; assumption.
  - intros n s Hn (H1 & H2 & H3 & H4 & H5 & H6 & H7).
    cbn in Hn. apply Z.leb_le in Hn.
    unfold counts_ok; cbn; repeat split; try lia; assumption.
Qed.

Lemma counters_stay_counts_witness :
  let ops := [OpLease; OpTraffic 10; OpCheckDay; OpSetUsed 0; OpSetLimit 5;
              OpRequest false] in
  let w := boot cfg_example env_revalidated in
  fst (run_ops ops w) = Return tt
  /\ counts_ok (stats (self (snd (run_ops ops w)))).
Proof.
  intros ops w.
  apply (counters_stay_counts ops w); [reflexivity|].
  unfold counts_ok. cbn. repeat split; try lia. constructor.
Defined.

End LedgerProperties.

Section PoolProperties.

Lemma ip_counter_keeps_lease :
  preserves (keeps lease_view) _increment_ip_usage_counter.
Proof.
  intros w. unfold _increment_ip_usage_counter.
  destruct (string_dec (today_date (stats (self w)))
                       (env_today (env w) (n_today (out w)))) as [E|E].
  - rewrite (bind_returns _ _ _ _ _ (check_same_day w E)). reflexivity.
  - rewrite (bind_returns _ _ _ _ _ (check_rolls w E)). reflexivity.
Qed.

Lemma lease_view_fields (w w' : World) :
  lease_view w' = lease_view w ->
  env w' = env w /\ config (self w') = config (self w)
  /\ current_ip (self w') = current_ip (self w)
  /\ current_port (self w') = current_port (self w)
  /\ last_validation_time (self w') = last_validation_time (self w)
  /\ n_probe (out w') = n_probe (out w)
  /\ n_time (out w') = n_time (out w)
  /\ sleeps (out w') = sleeps (out w).
Proof. unfold lease_view. intros H. inversion H. repeat split; assumption. Qed.

(** One request to the leasing service. *)
Lemma get_new_ip_spec (w : World) :
  exists r w',
    get_new_ip w = (r, w')
    /\ lease_view w' = lease_view w
    /\ (n_api (out w) <= n_api (out w') <= S (n_api (out w)))%nat
    /\ (r = Return (None, None)
        \/ (exists ip port,
              r = Return (Some ip, Some port)
              /\ n_api (out w') = S (n_api (out w))
              /\ candidate (env_api (env w) (n_api (out w))) = Some (ip, port))
        \/ (r = Raise CancelledError
            /\ n_api (out w') = S (n_api (out w))
            /\ env_api (env w) (n_api (out w)) = ApiCancelled)).
Proof.
  rewrite get_new_ip_eq.
  destruct (api_configured w).
  2:{ exists (Return (None, None)), w. split; [reflexivity|].
      split; [reflexivity|]. split; [lia|]. now left. }
  cbv zeta.
  destruct (candidate (env_api (env w) (n_api (out w)))) as [[ip port]|].
  - set (w1 := with_out (fun o => set_n_api (S (n_api o)) o) w).
    destruct (ip_counter_run w1) as (w' & Hrun & _ & Hn & _).
    pose proof (ip_counter_keeps_lease w1) as Hk.
    rewrite Hrun in Hk. cbn [snd] in Hk.
    rewrite (bind_returns _ _ _ _ _ Hrun).
    exists (Return (Some ip, Some port)), w'. split; [reflexivity|].
    split; [exact Hk|]. split; [rewrite Hn; cbn; lia|].
    right. left. exists ip, port. repeat split. exact Hn.
  - eexists; eexists. split; [reflexivity|]. split; [reflexivity|].
    split; [cbn; lia|].
    destruct (env_api (env w) (n_api (out w))) eqn:Er;
      [now left|now left|].
    right. right. repeat split.
Qed.

Lemma fresh_endpoint_earlier (w w2 w' : World) (ip : string) (port : Z) :
  env w2 = env w ->
  (n_api (out w) <= n_api (out w2))%nat ->
  (n_probe (out w) <= n_probe (out w2))%nat ->
  (n_time (out w) <= n_time (out w2))%nat ->
  fresh_endpoint w2 w' ip port -> fresh_endpoint w w' ip port.
Proof.
  intros He Ha Hp Ht (Hip & Hport & (i & Hi & Hc) & (j & Hj & Hv) & Hci & Hcp
                      & (t & Htt & Hl)).
  rewrite He in *. unfold fresh_endpoint.
  split; [exact Hip|]. split; [exact Hport|].
  split; [exists i; split; [lia|exact Hc]|].
  split; [exists j; split; [lia|exact Hv]|].
  split; [exact Hci|]. split; [exact Hcp|].
  exists t. split; [lia|exact Hl].
Qed.

Lemma cancelled_earlier (w w2 w' : World) :
  env w2 = env w ->
  (n_api (out w) <= n_api (out w2))%nat ->
  (n_probe (out w) <= n_probe (out w2))%nat ->
  (sleeps (out w) <= sleeps (out w2))%nat ->
  cancelled_between w2 w' -> cancelled_between w w'.
Proof.
  intros He Ha Hp Hs H. unfold cancelled_between in *. rewrite He in H.
  destruct H as [(k & Hk & H) | [(k & ip & port & Hk & H) | (k & Hk & H)]].
  - left. exists k. split; [lia|exact H].
  - right. left. exists k, ip, port. split; [lia|exact H].
  - right. right. exists k. split; [lia|exact H].
Qed.

Lemma sleep_1_eq (w : World) :
  sleep_1 w
  = (if env_sleep_cancelled (env w) (sleeps (out w))
     then Raise CancelledError else Return tt,
     with_out (fun o => set_sleeps (S (sleeps o)) o) w).
Proof.
  unfold sleep_1, bind.
  destruct (env_sleep_cancelled (env w) (sleeps (out w))); reflexivity.
Qed.

Lemma is_ip_valid_eq (ip : string) (port : Z) (w : World) :
  is_ip_valid ip port w
  = (match env_probe (env w) (n_probe (out w)) ip port with
     | Probe200 => Return true
     | ProbeFails => Return false
     | ProbeCancelled => Raise CancelledError
     end,
     with_out (fun o => set_n_probe (S (n_probe o)) o) w).
Proof.
  unfold is_ip_valid, bind, probe.
  destruct (env_probe (env w) (n_probe (out w)) ip port); reflexivity.
Qed.

Lemma bind_raises {A B : Type} (m : M A) (k : A -> M B) (w w1 : World)
      (e : exn) :
  m w = (Raise e, w1) -> bind m k w = (Raise e, w1).
Proof. intros H. unfold bind. now rewrite H. Qed.

Lemma acquire_spec (k : nat) : forall w, acquired k w (acquire k w).
Proof.
  induction k as [|k IH]; intros w.
  { unfold acquired, within. cbn. repeat split; lia. }
  destruct (get_new_ip_spec w) as (r0 & w0 & Hnew & Hview & Hna & Hcase).
  apply lease_view_fields in Hview.
  destruct Hview as (He0 & Hc0 & Hi0 & Hp0 & Hl0 & Hnp0 & Hnt0 & Hs0).
  (* the attempt failed: sleep, then the remaining attempts *)
  assert (forall w1,
             env w1 = env w0 -> self w1 = self w0 ->
             n_api (out w1) = n_api (out w0) ->
             n_time (out w1) = n_time (out w0) ->
             sleeps (out w1) = sleeps (out w0) ->
             (n_probe (out w0) <= n_probe (out w1) <= S (n_probe (out w0)))%nat ->
             acquired (S k) w ((sleep_1 ;; acquire k)%run w1)) as Hretry.
  { intros w1 He1 Hs1 Ha1 Ht1 Hsl1 Hp1.
    set (w2 := with_out (fun o => set_sleeps (S (sleeps o)) o) w1).
    pose proof (sleep_1_eq w1) as Hsleep. fold w2 in Hsleep.
    destruct (env_sleep_cancelled (env w1) (sleeps (out w1))) eqn:Hc.
    - rewrite (bind_raises _ _ _ _ _ Hsleep).
      unfold acquired, within, cancelled_between. cbn.
      rewrite He1, He0, Hs1, Ha1, Ht1, Hsl1.
      split; [reflexivity|]. split; [exact Hc0|].
      split; [repeat split; lia|].
      split; [reflexivity|].
      split; [|repeat split; assumption].
      right. right. exists (sleeps (out w)). split; [lia|].
      rewrite <- He0, <- He1, <- Hs0, <- Hsl1. exact Hc.
    - rewrite (bind_returns _ _ _ _ _ Hsleep).
      destruct (IH w2) as (He & Hcf & (Ha & Hp & Ht & Hs) & Hr).
      cbn in He, Hcf, Ha, Hp, Ht, Hs.
      unfold acquired, within.
      split; [congruence|]. split; [congruence|].
      split; [repeat split; lia|].
      destruct (fst (acquire k w2)) as [[[a b]|]|e].
      + destruct Hr as (ip & port & -> & -> & Hf). exists ip, port.
        split; [reflexivity|]. split; [reflexivity|].
        apply (fresh_endpoint_earlier w w2 _ ip port); cbn; try lia;
          [congruence|exact Hf].
      + destruct Hr as (H1 & H2 & H3 & H4 & H5). cbn in H1, H2, H3, H4, H5.
        repeat split; try congruence; lia.
      + destruct Hr as (-> & Hcb & H1 & H2 & H3). cbn in H1, H2, H3.
        split; [reflexivity|].
        split; [|repeat split; congruence].
        apply (cancelled_earlier w w2); cbn; try lia; [congruence|exact Hcb]. }
  cbn [acquire].
  destruct Hcase as [-> | [(ip & port & -> & Hn & Hcand) | (-> & Hn & Hcan)]].
  - rewrite (bind_returns _ _ _ _ _ Hnew). cbn [truthy andb].
    rewrite (bind_returns _ _ w0 w0 false) by reflexivity.
    apply Hretry; try reflexivity. lia.
  - rewrite (bind_returns _ _ _ _ _ Hnew). cbv beta iota.
    destruct (truthy (Some ip) && truthy_num (Some port)) eqn:Htruthy.
    2:{ rewrite (bind_returns _ _ w0 w0 false) by reflexivity.
        apply Hretry; try reflexivity. lia. }
    set (probed := with_out (fun o => set_n_probe (S (n_probe o)) o) w0).
    pose proof (is_ip_valid_eq ip port w0) as Hvalid. fold probed in Hvalid.
    cbn [get].
    destruct (env_probe (env w0) (n_probe (out w0)) ip port) eqn:Hprobe.
    + rewrite (bind_returns _ _ _ _ _ Hvalid).
      apply andb_prop in Htruthy. destruct Htruthy as [Hip Hport].
      unfold acquired, within. cbn.
      split; [exact He0|]. split; [exact Hc0|].
      split; [repeat split; lia|].
      exists ip, port. split; [reflexivity|]. split; [reflexivity|].
      unfold fresh_endpoint. cbn.
      split; [destruct ip; [discriminate|discriminate]|].
      split; [apply negb_true_iff, Z.eqb_neq in Hport; exact Hport|].
      split; [exists (n_api (out w)); split; [lia|exact Hcand]|].
      split; [exists (n_probe (out w)); split; [lia|congruence]|].
      split; [reflexivity|]. split; [reflexivity|].
      exists (n_time (out w)). split; [lia|congruence].
    + rewrite (bind_returns _ _ _ _ _ Hvalid).
      apply Hretry; try reflexivity. cbn. lia.
    + rewrite (bind_raises _ _ _ _ _ Hvalid).
      unfold acquired, within, cancelled_between. cbn.
      split; [exact He0|]. split; [exact Hc0|].
      split; [repeat split; lia|].
      split; [reflexivity|].
      split; [|repeat split; assumption].
      right. left. exists (n_probe (out w)), ip, port.
      split; [lia|congruence].
  - rewrite (bind_raises _ _ _ _ _ Hnew).
    unfold acquired, within, cancelled_between. cbn.
    split; [exact He0|]. split; [exact Hc0|].
    split; [repeat split; lia|].
    split; [reflexivity|].
    split; [|repeat split; assumption].
    left. exists (n_api (out w)). split; [lia|exact Hcan].
Qed.

Lemma within_refl (a p t k : nat) (w : World) : within a p t k w w.
Proof. unfold within. repeat split; lia. Qed.

(** Lines 461-474. *)
Lemma acquire_or_give_up_spec (w : World) :
  exists r w',
    acquire_or_give_up w = (r, w')
    /\ env w' = env w /\ config (self w') = config (self w)
    /\ within 3 3 1 3 w w'
    /\ ((truthy (current_ip (self w)) = true
         /\ r = Return (current_ip (self w), current_port (self w))
         /\ w' = w)
        \/ (truthy (current_ip (self w)) = false
            /\ r = Return (None, None)
            /\ current_ip (self w') = current_ip (self w)
            /\ current_port (self w') = current_port (self w)
            /\ sleeps (out w') = (sleeps (out w) + 3)%nat)
        \/ (truthy (current_ip (self w)) = false
            /\ exists ip port,
                 r = Return (Some ip, Some port)
                 /\ fresh_endpoint w w' ip port)
        \/ (truthy (current_ip (self w)) = false
            /\ r = Raise CancelledError
            /\ cancelled_between w w'
            /\ current_ip (self w') = current_ip (self w)
            /\ current_port (self w') = current_port (self w))).
Proof.
  unfold acquire_or_give_up.
  rewrite (bind_returns _ _ w w (current_ip (self w))) by reflexivity.
  destruct (truthy (current_ip (self w))) eqn:Hip; cbn [negb].
  - rewrite (bind_returns _ _ w w None) by reflexivity.
    rewrite (bind_returns _ _ w w (current_ip (self w))) by reflexivity.
    rewrite Hip. cbn [negb].
    exists (Return (current_ip (self w), current_port (self w))), w.
    split; [reflexivity|]. split; [reflexivity|]. split; [reflexivity|].
    split; [apply within_refl|]. left. repeat split.
  - pose proof (acquire_spec 3 w) as (He & Hc & Hw & Hr).
    unfold bind at 1.
    destruct (acquire 3 w) as [[[[a b]|]|e] w1]; cbn [fst snd] in *.
    + destruct Hr as (ip & port & -> & -> & Hf).
      exists (Return (Some ip, Some port)), w1.
      split; [reflexivity|]. split; [exact He|]. split; [exact Hc|].
      split; [exact Hw|]. right. right. left. split; [reflexivity|].
      exists ip, port. split; [reflexivity|exact Hf].
    + destruct Hr as (H1 & H2 & H3 & H4 & H5).
      rewrite (bind_returns _ _ w1 w1 (current_ip (self w1))) by reflexivity.
      rewrite H1, Hip. cbn [negb].
      exists (Return (None, None)), w1.
      split; [reflexivity|]. split; [exact He|]. split; [exact Hc|].
      split; [exact Hw|]. right. left. repeat split; assumption.
    + destruct Hr as (-> & Hcb & H1 & H2 & _).
      exists (Raise CancelledError), w1.
      split; [reflexivity|]. split; [exact He|]. split; [exact Hc|].
      split; [exact Hw|]. right. right. right.
      repeat split; assumption.
Qed.


(** The same switch while another caller is queued on [ip_lock]: the
    queued [get_valid_ip] is served between the clearing block and the
    [get_valid_ip] of [switch_ip], which then answers from the cache
    that the other caller has just filled, with no lease request and no
    probe of its own. *)
Example switch_ip_behind_a_waiter :
  let w := boot cfg_example (env_request "") in
  let served := fun w0 => snd (get_valid_ip w0) in
  let between := served (snd ((set_ip None ;; set_port None)%run w)) in
  let w' := snd (switch_ip served w) in
  fst (switch_ip served w) = Return (Some "1.2.3.4", Some 8080)
  /\ n_api (out w') = n_api (out between)
  /\ n_probe (out w') = n_probe (out between).
Proof. vm_compute. repeat split; reflexivity. Qed.

Lemma within_later (w w1 w' : World) (dp : nat) :
  n_api (out w1) = n_api (out w) ->
  n_probe (out w1) = (n_probe (out w) + dp)%nat -> (dp <= 1)%nat ->
  n_time (out w1) = S (n_time (out w)) ->
  sleeps (out w1) = sleeps (out w) ->
  within 3 3 1 3 w1 w' -> within 3 4 2 3 w w'.
Proof. unfold within. intros Ha Hp Hd Ht Hs H. repeat split; lia. Qed.

(** The ways [get_valid_ip] (439-474) can end. *)
Lemma get_valid_ip_spec (w : World) :
  exists r w',
    get_valid_ip w = (r, w')
    /\ env w' = env w
    /\ within 3 4 2 3 w w'
    /\ ((exists ip port validated,
           r = Return (Some ip, Some port)
           /\ current_ip (self w) = Some ip
           /\ current_port (self w) = Some port
           /\ last_validation_time (self w) = Some validated
           /\ env_time (env w) (n_time (out w)) - validated
              < get (validation_interval (config (self w))) 60
           /\ self w' = self w
           /\ n_api (out w') = n_api (out w)
           /\ n_probe (out w') = n_probe (out w)
           /\ sleeps (out w') = sleeps (out w))
        \/ (exists ip port,
              r = Return (Some ip, Some port)
              /\ current_ip (self w) = Some ip
              /\ current_port (self w) = Some port
              /\ current_ip (self w') = Some ip
              /\ current_port (self w') = Some port
              /\ env_probe (env w) (n_probe (out w)) ip port = Probe200
              /\ n_probe (out w') = S (n_probe (out w))
              /\ n_api (out w') = n_api (out w))
        \/ (exists ip port,
              r = Return (Some ip, Some port) /\ fresh_endpoint w w' ip port)
        \/ (r = Return (None, None) /\ truthy (current_ip (self w')) = false)
        \/ (truthy (current_ip (self w)) = true
            /\ truthy_num (current_port (self w))
               && truthy_num (last_validation_time (self w)) = false
            /\ r = Return (current_ip (self w), current_port (self w))
            /\ w' = w)
        \/ (r = Raise CancelledError /\ cancelled_between w w')).
Proof.
  unfold get_valid_ip.
  rewrite (bind_returns _ _ w w
             (get (ip_expiration_time (config (self w))) 300)) by reflexivity.
  rewrite (bind_returns _ _ w w
             (get (validation_interval (config (self w))) 60)) by reflexivity.
  rewrite (bind_returns _ _ w w (self w)) by reflexivity.
  set (ttl := get (ip_expiration_time (config (self w))) 300).
  set (interval := get (validation_interval (config (self w))) 60).
  (* what follows a call of [acquire_or_give_up] on a world [w1] reached
     after one reading of the clock *)
  assert (forall w1 dp,
             env w1 = env w ->
             current_ip (self w1) = None ->
             n_api (out w1) = n_api (out w) ->
             n_probe (out w1) = (n_probe (out w) + dp)%nat -> (dp <= 1)%nat ->
             n_time (out w1) = S (n_time (out w)) ->
             sleeps (out w1) = sleeps (out w) ->
             exists r w',
               acquire_or_give_up w1 = (r, w')
               /\ env w' = env w
               /\ within 3 4 2 3 w w'
               /\ ((exists ip port,
                      r = Return (Some ip, Some port)
                      /\ fresh_endpoint w w' ip port)
                   \/ (r = Return (None, None)
                       /\ truthy (current_ip (self w')) = false)
                   \/ (r = Raise CancelledError /\ cancelled_between w w')))
    as Hafter.
  { intros w1 dp He1 Hnone Ha1 Hp1 Hdp Ht1 Hs1.
    destruct (acquire_or_give_up_spec w1)
      as (r & w' & Hrun & He & Hc & Hw & Hcase).
    exists r, w'. split; [exact Hrun|]. split; [congruence|].
    split; [apply (within_later w w1 w' dp); assumption|].
    destruct Hcase as [(H & _)
                      | [(_ & -> & H1 & H2 & H3)
                        | [(_ & ip' & port' & -> & Hf)
                          | (_ & -> & Hcb & _)]]].
    - rewrite Hnone in H. discriminate.
    - right. left. split; [reflexivity|]. now rewrite H1, Hnone.
    - left. exists ip', port'. split; [reflexivity|].
      apply (fresh_endpoint_earlier w w1 w'); try lia; assumption.
    - right. right. split; [reflexivity|].
      apply (cancelled_earlier w w1 w'); try lia; assumption. }
  destruct (truthy (current_ip (self w)) && truthy_num (current_port (self w))
            && truthy_num (last_validation_time (self w))) eqn:Hcond.
  2:{ destruct (acquire_or_give_up_spec w)
        as (r & w' & Hrun & He & Hc & Hw & Hcase).
      exists r, w'. split; [exact Hrun|]. split; [exact He|].
      split; [unfold within in *; repeat split; lia|].
      destruct Hcase as [(Hip & -> & ->)
                        | [(Hip & -> & H1 & H2 & H3)
                          | [(_ & ip & port & -> & Hf)
                            | (_ & -> & Hcb & _)]]].
      - right. right. right. right. left. rewrite Hip in Hcond.
        split; [exact Hip|]. split; [exact Hcond|]. repeat split.
      - right. right. right. left. split; [reflexivity|]. now rewrite H1.
      - right. right. left. exists ip, port.
        split; [reflexivity|exact Hf].
      - right. right. right. right. right. now split. }
  apply andb_prop in Hcond. destruct Hcond as [Hcond Hval].
  apply andb_prop in Hcond. destruct Hcond as [Hip Hport].
  destruct (current_ip (self w)) as [ip|] eqn:Eip; [|discriminate].
  destruct (current_port (self w)) as [port|] eqn:Eport; [|discriminate].
  destruct (last_validation_time (self w)) as [validated|] eqn:Eval;
    [|discriminate].
  cbn [get].
  set (w_t := with_out (fun o => set_n_time (S (n_time o)) o) w).
  rewrite (bind_returns _ _ w w_t (env_time (env w) (n_time (out w))))
    by reflexivity.
  set (now := env_time (env w) (n_time (out w))).
  destruct ((0 <? ttl) && (ttl <? now - validated)) eqn:Hexp.
  { unfold set_ip, set_port.
    do 2 match goal with
         | |- context [bind (modify ?f) ?k ?W] =>
             rewrite (bind_returns _ _ W (f W) tt) by reflexivity
         end.
    match goal with
    | |- context [acquire_or_give_up ?W] => set (w1 := W)
    end.
    destruct (Hafter w1 0%nat) as (r & w' & Hrun & He & Hw & Hcase);
      try reflexivity; try (cbn; lia).
    exists r, w'. split; [exact Hrun|]. split; [exact He|].
    split; [exact Hw|].
    destruct Hcase as [H | [H | H]].
    - right. right. now left.
    - right. right. right. now left.
    - right. right. right. right. now right. }
  destruct (now - validated <? interval) eqn:Hint.
  { exists (Return (Some ip, Some port)), w_t.
    split; [unfold current, gets; cbn; rewrite Eip, Eport; reflexivity|].
    split; [reflexivity|].
    split; [unfold within; cbn; repeat split; lia|].
    left. exists ip, port, validated. apply Z.ltb_lt in Hint.
    repeat split; try reflexivity. exact Hint. }
  set (w_p := with_out (fun o => set_n_probe (S (n_probe o)) o) w_t).
  pose proof (is_ip_valid_eq ip port w_t) as Hvalid. fold w_p in Hvalid.
  change (env_probe (env w_t) (n_probe (out w_t)) ip port)
    with (env_probe (env w) (n_probe (out w)) ip port) in Hvalid.
  destruct (env_probe (env w) (n_probe (out w)) ip port) eqn:Hprobe.
  - rewrite (bind_returns _ _ _ _ _ Hvalid).
    eexists; eexists.
    split; [unfold current, gets; cbn; rewrite Eip, Eport; reflexivity|].
    split; [reflexivity|].
    split; [unfold within; cbn; repeat split; lia|].
    right. left. exists ip, port. cbn. rewrite Eip, Eport.
    repeat split; try reflexivity. exact Hprobe.
  - rewrite (bind_returns _ _ _ _ _ Hvalid).
    unfold set_ip.
    match goal with
    | |- context [bind (modify ?f) ?k ?W] =>
        rewrite (bind_returns _ _ W (f W) tt) by reflexivity
    end.
    match goal with
    | |- context [acquire_or_give_up ?W] => set (w1 := W)
    end.
    destruct (Hafter w1 1%nat) as (r & w' & Hrun & He & Hw & Hcase);
      try reflexivity; try (cbn; lia).
    exists r, w'. split; [exact Hrun|]. split; [exact He|].
    split; [exact Hw|].
    destruct Hcase as [H | [H | H]].
    + right. right. now left.
    + right. right. right. now left.
    + right. right. right. right. now right.
  - rewrite (bind_raises _ _ _ _ _ Hvalid).
    exists (Raise CancelledError), w_p.
    split; [reflexivity|]. split; [reflexivity|].
    split; [unfold within; cbn; repeat split; lia|].
    right. right. right. right. right. split; [reflexivity|].
    right. left. exists (n_probe (out w)), ip, port.
    split; [cbn; lia|exact Hprobe].
Qed.

Lemma uncancelled_returns (w w' : World) :
  uncancelled (env w) -> ~ cancelled_between w w'.
Proof.
  intros (Ha & Hp & Hs) [(k & _ & H) | [(k & ip & port & _ & H) | (k & _ & H)]].
  - now apply (Ha k).
  - now apply (Hp k ip port).
  - rewrite (Hs k) in H. discriminate.
Qed.

(** One call of [get_valid_ip] (439-474), once it holds [ip_lock], costs
    at most three requests to the leasing service, four probes, two
    readings of the clock and three sleeps of one second, however it
    ends.  When it returns, its
    answer is either [(None, None)] or the current endpoint as the
    plugin holds it afterwards.  When it raises, the exception is
    [CancelledError] and a lease request, a probe or a sleep of this
    call was cut short by the cancellation of the calling task; so it
    returns whenever none of these is cancelled. *)
Theorem pool_answer_is_current (w : World) :
  let r := fst (get_valid_ip w) in
  let w' := snd (get_valid_ip w) in
  within 3 4 2 3 w w'
  /\ match r with
     | Return (a, b) =>
         (a = None /\ b = None)
         \/ (a = current_ip (self w') /\ b = current_port (self w'))
     | Raise e => e = CancelledError /\ cancelled_between w w'
     end
  /\ (uncancelled (env w) -> exists a b, r = Return (a, b)).
Proof.
  destruct (get_valid_ip_spec w) as (r & w' & Hrun & _ & Hw & Hcase).
  rewrite Hrun. cbn [fst snd]. split; [exact Hw|].
  assert (match r with
          | Return (a, b) =>
              (a = None /\ b = None)
              \/ (a = current_ip (self w') /\ b = current_port (self w'))
          | Raise e => e = CancelledError /\ cancelled_between w w'
          end) as Hr.
  { destruct Hcase
      as [(ip & port & v & -> & Hi & Hp & _ & _ & Hs & _)
         | [(ip & port & -> & _ & _ & Hi & Hp & _)
           | [(ip & port & -> & _ & _ & _ & _ & Hi & Hp & _)
             | [(-> & _)
               | [(_ & _ & -> & ->)
                 | (-> & Hcb)]]]]].
    - right. rewrite Hs. now split.
    - right. now split.
    - right. now split.
    - left. now split.
    - right. now split.
    - now split. }
  split; [exact Hr|].
  intros Hun. destruct r as [[a b]|e]; [now exists a, b|].
  destruct Hr as [_ Hcb]. now apply uncancelled_returns in Hcb.
Qed.

(** The scenarios in which the leasing service answers once and no
    await is cancelled. *)
Ltac no_cancellation :=
  split; [|split];
  [ intros [|[|k]]; discriminate
  | intros k ip port; discriminate
  | intros k; reflexivity ].

Lemma pool_answer_is_current_witness :
  let w := boot cfg_example (env_request "") in
  uncancelled (env w)
  /\ exists a b, fst (get_valid_ip w) = Return (a, b).
Proof.
  intros w.
  assert (uncancelled (env w)) as Hun by no_cancellation.
  split; [exact Hun|].
  exact (proj2 (proj2 (pool_answer_is_current w)) Hun).
Defined.

(** An endpoint that [get_valid_ip] hands out has been validated: it
    answered a probe during this call, or it is the endpoint held
    before, validated less than [validation_interval] seconds before the
    clock was read, and then nothing was asked of the leasing service or
    of the probe.  A call that hands out nothing returns
    [(None, None)], or is cancelled at one of its awaits and raises
    [CancelledError].  This holds from every state in which an endpoint
    that is set has its port and validation time set, which is how the
    pool itself sets them (466-467). *)
Theorem pool_answer_validated (w : World) :
  (truthy (current_ip (self w)) = true ->
   truthy_num (current_port (self w)) = true
   /\ truthy_num (last_validation_time (self w)) = true) ->
  exists r w',
    get_valid_ip w = (r, w')
    /\ (uncancelled (env w) -> exists a b, r = Return (a, b))
    /\ match r with
       | Raise e => e = CancelledError /\ cancelled_between w w'
       | Return (a, b) =>
           (a = None /\ b = None)
           \/ exists ip port,
                a = Some ip /\ b = Some port
                /\ current_ip (self w') = Some ip
                /\ current_port (self w') = Some port
                /\ ((exists validated,
                       last_validation_time (self w) = Some validated
                       /\ env_time (env w) (n_time (out w)) - validated
                          < get (validation_interval (config (self w))) 60
                       /\ n_api (out w') = n_api (out w)
                       /\ n_probe (out w') = n_probe (out w))
                    \/ exists j,
                         (n_probe (out w) <= j < n_probe (out w'))%nat
                         /\ env_probe (env w) j ip port = Probe200)
       end.
Proof.
  intros Hstate.
  destruct (get_valid_ip_spec w) as (r & w' & Hrun & _ & _ & Hcase).
  exists r, w'. split; [exact Hrun|].
  assert (match r with
          | Raise e => e = CancelledError /\ cancelled_between w w'
          | Return (a, b) =>
              (a = None /\ b = None)
              \/ exists ip port,
                   a = Some ip /\ b = Some port
                   /\ current_ip (self w') = Some ip
                   /\ current_port (self w') = Some port
                   /\ ((exists validated,
                          last_validation_time (self w) = Some validated
                          /\ env_time (env w) (n_time (out w)) - validated
                             < get (validation_interval (config (self w))) 60
                          /\ n_api (out w') = n_api (out w)
                          /\ n_probe (out w') = n_probe (out w))
                       \/ exists j,
                            (n_probe (out w) <= j < n_probe (out w'))%nat
                            /\ env_probe (env w) j ip port = Probe200)
          end) as Hr.
  { destruct Hcase
      as [(ip & port & v & -> & Hi & Hp & Hv & Hage & Hs & Ha & Hn & _)
         | [(ip & port & -> & _ & _ & Hi & Hp & Hprobe & Hn & _)
           | [(ip & port & -> & _ & _ & _ & (j & Hj & Hprobe) & Hi & Hp & _)
             | [(-> & _)
               | [(Hip & Hrest & _)
                 | (-> & Hcb)]]]]].
    - right. exists ip, port. rewrite Hs.
      repeat split; try assumption. left. exists v. now repeat split.
    - right. exists ip, port. repeat split; try assumption.
      right. exists (n_probe (out w)). split; [lia|exact Hprobe].
    - right. exists ip, port. repeat split; try assumption.
      right. exists j. now split.
    - left. now split.
    - destruct (Hstate Hip) as [H1 H2]. rewrite H1, H2 in Hrest.
      discriminate.
    - now split. }
  split; [|exact Hr].
  intros Hun. destruct r as [[a b]|e]; [now exists a, b|].
  destruct Hr as [_ Hcb]. now apply uncancelled_returns in Hcb.
Qed.

Lemma pool_answer_validated_witness :
  let w := with_endpoint "1.2.3.4" 8080 1000 (boot cfg_example env_revalidated) in
  uncancelled (env w)
  /\ exists r w',
    get_valid_ip w = (r, w')
    /\ (uncancelled (env w) -> exists a b, r = Return (a, b))
    /\ match r with
       | Raise e => e = CancelledError /\ cancelled_between w w'
       | Return (a, b) =>
           (a = None /\ b = None)
           \/ exists ip port,
                a = Some ip /\ b = Some port
                /\ current_ip (self w') = Some ip
                /\ current_port (self w') = Some port
                /\ ((exists validated,
                       last_validation_time (self w) = Some validated
                       /\ env_time (env w) (n_time (out w)) - validated
                          < get (validation_interval (config (self w))) 60
                       /\ n_api (out w') = n_api (out w)
                       /\ n_probe (out w') = n_probe (out w))
                    \/ exists j,
                         (n_probe (out w) <= j < n_probe (out w'))%nat
                         /\ env_probe (env w) j ip port = Probe200)
       end.
Proof.
  intros w. split; [no_cancellation|].
  apply (pool_answer_validated w).
  intros _. split; reflexivity.
Defined.

(** Lines 443-457 with [ip_expiration_time] at zero or below, the
    setting that [set_ip_expiration_time] (532-540) reports as no
    forced expiry: as long as the endpoint answers its probes it is
    never given up, however old it is.  The call returns it without
    asking the leasing service for anything, and leaves the pool in a
    state from which the same holds again. *)
Theorem endpoint_never_expires (w : World) (ip : string)
        (port validated : Z) :
  current_ip (self w) = Some ip -> ip <> EmptyString ->
  current_port (self w) = Some port -> port <> 0 ->
  last_validation_time (self w) = Some validated -> validated <> 0 ->
  get (ip_expiration_time (config (self w))) 300 <= 0 ->
  (forall j, env_probe (env w) j ip port = Probe200) ->
  (forall t, env_time (env w) t <> 0) ->
  exists w' validated',
    get_valid_ip w = (Return (Some ip, Some port), w')
    /\ env w' = env w /\ config (self w') = config (self w)
    /\ current_ip (self w') = Some ip /\ current_port (self w') = Some port
    /\ last_validation_time (self w') = Some validated'
    /\ validated' <> 0
    /\ n_api (out w') = n_api (out w)
    /\ stats (self w') = stats (self w).
Proof.
  intros Hip Hip0 Hport Hp0 Hval Hv0 Httl Hprobe Hclock.
  unfold get_valid_ip, bind at 1, gets. cbn.
  rewrite Hip, Hport, Hval. cbn [truthy_num].
  destruct ip as [|c0 r0]; [congruence|]. set (ip := String c0 r0) in *.
  cbn [truthy].
  apply Z.eqb_neq in Hp0. rewrite Hp0.
  pose proof Hv0 as Hv0'. apply Z.eqb_neq in Hv0'. rewrite Hv0'. cbn.
  assert ((0 <? get (ip_expiration_time (config (self w))) 300) = false)
    as -> by (apply Z.ltb_ge; exact Httl).
  cbn [andb].
  destruct (env_time (env w) (n_time (out w)) - validated
            <? get (validation_interval (config (self w))) 60).
  - eexists; exists validated.
    split; [unfold current, gets; cbn; rewrite Hip, Hport; reflexivity|].
    cbn. repeat split; assumption.
  - unfold bind at 1, is_ip_valid, bind at 1, probe. cbn.
    rewrite Hprobe. cbn.
    eexists; eexists.
    split; [unfold current, gets; cbn; rewrite Hip, Hport; reflexivity|].
    cbn. repeat split; try assumption. apply Hclock.
Qed.

Lemma endpoint_never_expires_witness :
  let cfg := mkConfig (Some "http://lease.example/get?n=1")
                      (Some ["example.com"]) (Some 0) (Some 60) in
  let w := with_endpoint "1.2.3.4" 8080 400 (boot cfg (env_request "")) in
  exists w' validated',
    get_valid_ip w = (Return (Some "1.2.3.4", Some 8080), w')
    /\ env w' = env w /\ config (self w') = config (self w)
    /\ current_ip (self w') = Some "1.2.3.4"
    /\ current_port (self w') = Some 8080
    /\ last_validation_time (self w') = Some validated'
    /\ validated' <> 0
    /\ n_api (out w') = n_api (out w)
    /\ stats (self w') = stats (self w).
Proof.
  intros cfg w.
  apply (endpoint_never_expires w "1.2.3.4" 8080 400);
    try reflexivity; discriminate.
Defined.

End PoolProperties.

Section HostnameProperties.

Lemma lower_no_upper (s : string) : no_upper (lower s) = true.
Proof.
  unfold no_upper, lower. induction s as [|c r IH]; [reflexivity|].
  cbn [map_chars all_chars]. rewrite IH, andb_true_r.
  unfold lower_char. destruct (isupper c) eqn:E; [|now rewrite E].
  destruct c as [[] [] [] [] [] [] [] []]; try discriminate; reflexivity.
Qed.

(** [_extract_hostname] (415-423) answers in lower case, and the
    handler looks the answer up in the configured set as it is written
    (218, 227): an entry of [allowed_domains] that has an upper-case
    letter never admits a request. *)
Theorem uppercase_entries_never_match (data h : string)
        (allowed : list string) :
  _extract_hostname data = Some h ->
  no_upper h = true
  /\ member h allowed = member h (filter no_upper allowed).
Proof.
  intros H.
  assert (no_upper h = true) as Hh.
  { unfold _extract_hostname in H.
    destruct (re_search match_connect data);
      [inversion H; apply lower_no_upper|].
    destruct (re_search match_host data); [|discriminate].
    inversion H; apply lower_no_upper. }
  split; [exact Hh|].
  unfold member. induction allowed as [|e l IH]; [reflexivity|].
  cbn [existsb filter]. destruct (no_upper e) eqn:He.
  - cbn [existsb]. now rewrite IH.
  - destruct (String.eqb h e) eqn:E; [|exact IH].
    apply String.eqb_eq in E. congruence.
Qed.

Lemma uppercase_entries_never_match_witness :
  no_upper "example.com" = true
  /\ member "example.com" ["Example.com"; "example.COM"]
     = member "example.com" (filter no_upper ["Example.com"; "example.COM"]).
Proof.
  apply (uppercase_entries_never_match (connect_to "Example.COM")).
  reflexivity.
Defined.

Lemma re_search_leftmost (pattern : string -> option string) (s : string) :
  match re_search pattern s with
  | Some g =>
      exists k, pattern (suffix_from k s) = Some g
                /\ forall j, (j < k)%nat -> pattern (suffix_from j s) = None
  | None => forall k, pattern (suffix_from k s) = None
  end.
Proof.
  induction s as [|c r IH]; cbn [re_search].
  - destruct (pattern EmptyString) as [g|] eqn:E.
    + exists 0%nat. split; [exact E|]. intros j Hj. lia.
    + intros [|k]; exact E.
  - destruct (pattern (String c r)) as [g|] eqn:E.
    + exists 0%nat. split; [exact E|]. intros j Hj. lia.
    + destruct (re_search pattern r) as [g|].
      * destruct IH as (k & Hk & Hbefore). exists (S k).
        split; [exact Hk|]. intros [|j] Hj; [exact E|].
        apply Hbefore. lia.
      * intros [|k]; [exact E|apply IH].
Qed.

(** [_extract_hostname] (418-421) searches the whole of the initial
    bytes for the CONNECT pattern before it looks at any Host header:
    wherever the pattern matches, the hostname is the one of its
    leftmost match, whatever the Host header says.  This is stated for
    7-bit bytes, which [decode] leaves as they are and among which the
    positions of the text are those of the bytes. *)
Theorem connect_takes_precedence (data g : string) (k : nat) :
  is_7bit data = true ->
  match_connect (suffix_from k data) = Some g ->
  exists k' g',
    (k' <= k)%nat
    /\ match_connect (suffix_from k' data) = Some g'
    /\ (forall j, (j < k')%nat -> match_connect (suffix_from j data) = None)
    /\ _extract_hostname data = Some (lower g').
Proof.
  intros _ H. pose proof (re_search_leftmost match_connect data) as Hs.
  unfold _extract_hostname.
  destruct (re_search match_connect data) as [g'|].
  - destruct Hs as (k' & Hk & Hbefore). exists k', g'.
    split; [|now repeat split].
    destruct (Nat.le_gt_cases k' k) as [Hle|Hgt]; [exact Hle|].
    rewrite (Hbefore k Hgt) in H. discriminate.
  - rewrite (Hs k) in H. discriminate.
Qed.

Lemma connect_takes_precedence_witness :
  exists k' g',
    (k' <= 45)%nat
    /\ match_connect (suffix_from k' smuggled_connect) = Some g'
    /\ (forall j, (j < k')%nat
                  -> match_connect (suffix_from j smuggled_connect) = None)
    /\ _extract_hostname smuggled_connect = Some (lower g').
Proof.
  apply (connect_takes_precedence smuggled_connect "Example.COM" 45);
    reflexivity.
Defined.

Lemma span_stops (p : ascii -> bool) (a : string) (c : ascii) (r : string) :
  all_chars p a = true -> p c = false ->
  span p (a ++ String c r) = (a, String c r).
Proof.
  intros Ha Hc. induction a as [|x a IH]; cbn.
  - now rewrite Hc.
  - cbn in Ha. apply andb_prop in Ha. destruct Ha as [Hx Ha].
    rewrite Hx, (IH Ha). reflexivity.
Qed.

Lemma hostchar_not_space (c : ascii) : ishostchar c = true -> isspace c = false.
Proof.
  destruct c as [[] [] [] [] [] [] [] []]; try reflexivity; discriminate.
Qed.

(** An ordinary CONNECT request line gives its host, in lower case:
    the method, blanks, a host name made of letters, digits, dots and
    hyphens, a colon and a port (418-419). *)
Theorem connect_request_hostname (blanks host rest : string) (d : ascii) :
  blanks <> EmptyString -> all_chars isspace blanks = true ->
  host <> EmptyString -> all_chars ishostchar host = true ->
  isdigit d = true ->
  _extract_hostname ("CONNECT" ++ blanks ++ host ++ ":" ++ String d rest)
  = Some (lower host).
Proof.
  intros Hb Hsp Hh Hhost Hd.
  assert (match_connect ("CONNECT" ++ blanks ++ host ++ ":" ++ String d rest)
          = Some host) as Hm.
  { unfold match_connect.
    change (strip_prefix_nocase "CONNECT"
              ("CONNECT" ++ blanks ++ host ++ ":" ++ String d rest))
      with (Some (blanks ++ host ++ ":" ++ String d rest)%string).
    destruct host as [|h0 host]; [congruence|].
    cbn in Hhost. apply andb_prop in Hhost. destruct Hhost as [Hh0 Hhost].
    change (blanks ++ String h0 host ++ ":" ++ String d rest)%string
      with (blanks ++ String h0 (host ++ ":" ++ String d rest))%string.
    rewrite (span_stops isspace blanks h0 _ Hsp (hostchar_not_space h0 Hh0)).
    destruct blanks as [|b0 blanks]; [congruence|].
    change (String h0 (host ++ ":" ++ String d rest))%string
      with (String h0 host ++ String ":" (String d rest))%string.
    rewrite (span_stops ishostchar (String h0 host) ":" (String d rest));
      [|cbn; now rewrite Hh0|reflexivity].
    now rewrite Hd. }
  unfold _extract_hostname.
  assert (re_search match_connect
            ("CONNECT" ++ blanks ++ host ++ ":" ++ String d rest)
          = Some host) as ->.
  { change ("CONNECT" ++ blanks ++ host ++ ":" ++ String d rest)%string
      with (String "C" ("ONNECT" ++ blanks ++ host ++ ":" ++ String d rest))
      in *.
    cbn [re_search]. now rewrite Hm. }
  reflexivity.
Qed.

Lemma connect_request_hostname_witness :
  _extract_hostname ("CONNECT" ++ " " ++ "Api.Example.com" ++ ":"
                     ++ String "4" "43 HTTP/1.1")
  = Some (lower "Api.Example.com").
Proof.
  apply (connect_request_hostname " " "Api.Example.com" "43 HTTP/1.1" "4");
    try reflexivity; discriminate.
Defined.

End HostnameProperties.

Section FormatProperties.

Lemma range_check (f : Z -> bool) (lo len : nat) (n : Z) :
  forallb (fun k => f (Z.of_nat k)) (seq lo len) = true ->
  Z.of_nat lo <= n < Z.of_nat lo + Z.of_nat len -> f n = true.
Proof.
  intros Hall Hn. rewrite forallb_forall in Hall.
  specialize (Hall (Z.to_nat n)). rewrite Z2Nat.id in Hall by lia.
  apply Hall. apply in_seq. lia.
Qed.

(** [_format_bytes] (59-67) against [_parse_traffic_string] (70-92):
    what the commands show for a byte count below 1024, or for a whole
    number below 1024 of KB, MB, GB, TB or PB, is read back by the parser
    as the same byte count. *)
Theorem shown_value_parses_back (n : Z) :
  0 <= n < 1024
  \/ (exists k j, 1 <= k < 1024 /\ 1 <= j <= 5 /\ n = k * 1024 ^ j) ->
  exists shown,
    _format_bytes n = Return shown
    /\ _parse_traffic_string shown = Return (Some n).
Proof.
  intros Hn.
  assert (echoes_back n = true) as Hecho.
  { destruct Hn as [Hn | (k & j & Hk & Hj & ->)].
    - apply (range_check echoes_back 0 1024); [vm_compute; reflexivity|lia].
    - assert (j = 1 \/ j = 2 \/ j = 3 \/ j = 4 \/ j = 5)
        as [-> | [-> | [-> | [-> | ->]]]] by lia.
      + apply (range_check (fun k => echoes_back (k * 1024 ^ 1)) 1 1023);
          [vm_compute; reflexivity|lia].
      + apply (range_check (fun k => echoes_back (k * 1024 ^ 2)) 1 1023);
          [vm_compute; reflexivity|lia].
      + apply (range_check (fun k => echoes_back (k * 1024 ^ 3)) 1 1023);
          [vm_compute; reflexivity|lia].
      + apply (range_check (fun k => echoes_back (k * 1024 ^ 4)) 1 1023);
          [vm_compute; reflexivity|lia].
      + apply (range_check (fun k => echoes_back (k * 1024 ^ 5)) 1 1023);
          [vm_compute; reflexivity|lia]. }
  unfold echoes_back in Hecho.
  destruct (_format_bytes n) as [shown|e]; [|discriminate].
  exists shown. split; [reflexivity|].
  destruct (_parse_traffic_string shown) as [[m|]|e]; try discriminate.
  apply Z.eqb_eq in Hecho. now subst m.
Qed.

Lemma shown_value_parses_back_witness :
  exists shown,
    _format_bytes (5 * 1024 ^ 3) = Return shown
    /\ _parse_traffic_string shown = Return (Some (5 * 1024 ^ 3)).
Proof.
  apply (shown_value_parses_back (5 * 1024 ^ 3)).
  right. exists 5, 3. repeat split; lia.
Defined.

(** Line 67: the loop leaves the size in PB when it runs out of units,
    and the last line labels it EB.  So a whole number [k < 1024] of
    exabytes ([1024^6] bytes each) is shown with the figure [1024 k],
    and the parser, which knows no unit EB, reads that text back as
    [1024 k] bytes. *)
Theorem exabytes_shown_in_petabytes (k : Z) :
  1 <= k < 1024 ->
  _format_bytes (k * 1024 ^ 6)
  = Return (str_int (1024 * k) ++ ".00 EB")%string
  /\ _parse_traffic_string (str_int (1024 * k) ++ ".00 EB")
     = Return (Some (1024 * k)).
Proof.
  intros Hk.
  assert (exabytes_as_petabytes k = true) as H
      by (apply (range_check exabytes_as_petabytes 1 1023);
          [vm_compute; reflexivity|lia]).
  unfold exabytes_as_petabytes in H.
  destruct (_format_bytes (k * 1024 ^ 6)) as [t|e]; [|discriminate].
  destruct (_parse_traffic_string _) as [[m|]|e]; try discriminate.
  apply andb_prop in H. destruct H as [Ht Hm].
  apply String.eqb_eq in Ht. apply Z.eqb_eq in Hm. now subst.
Qed.

Lemma exabytes_shown_in_petabytes_witness :
  _format_bytes (1 * 1024 ^ 6) = Return (str_int (1024 * 1) ++ ".00 EB")%string
  /\ _parse_traffic_string (str_int (1024 * 1) ++ ".00 EB")
     = Return (Some (1024 * 1)).
Proof. apply (exabytes_shown_in_petabytes 1). lia. Defined.

End FormatProperties.

Section CommandProperties.





End CommandProperties.
